(** * USBasp firmware: the programming-session state machine of main.c

    A shallow embedding of [usbFunctionSetup], [usbFunctionRead] and
    [usbFunctionWrite] (main.c, target ATmega8, avr-gcc: [uchar] is 8 bits,
    [int] and [unsigned int] are 16 bits, [unsigned long] is 32 bits), with
    the global variables of the file gathered in one record that is passed
    from call to call, and every call into the ISP layer recorded in a log. *)

From stdpp Require Import base numbers list.
Local Open Scope Z_scope.

(** ** Machine integers *)

(** Conversion to [uchar], [unsigned int] and [unsigned long]. *)
Definition wrap8 (x : Z) : Z := x mod 256.
Definition wrap16 (x : Z) : Z := x mod 65536.
Definition wrap32 (x : Z) : Z := x mod 4294967296.

(** The value of a 16-bit [int] expression: avr-gcc computes signed
    arithmetic and shifts in two's complement. *)
Definition int16 (x : Z) : Z := (x + 32768) mod 65536 - 32768.

Definition is_uchar (x : Z) : Prop := 0 <= x < 256.

(** ** usbasp.h *)

(** Modelled from the spec: the [PROG_STATE_*] constants of usbasp.h, a
    header that is not among the sources. The spec (section 3) gives [mode]
    as an enumeration of five values, and main.c stores nothing else in
    [prog_state]. *)
Inductive prog_state_t : Type :=
| PROG_STATE_IDLE
| PROG_STATE_WRITEFLASH
| PROG_STATE_READFLASH
| PROG_STATE_READEEPROM
| PROG_STATE_WRITEEEPROM.

#[global] Instance prog_state_eq_dec : EqDecision prog_state_t.
Proof. solve_decision. Defined.

(** The numeric constants of usbasp.h and clock.h that main.c uses. Their
    values are not in the sources, so the development is parametric in
    them. *)
Class usbasp_h : Type := {
  USBASP_FUNC_CONNECT : Z;
  USBASP_FUNC_DISCONNECT : Z;
  USBASP_FUNC_TRANSMIT : Z;
  USBASP_FUNC_READFLASH : Z;
  USBASP_FUNC_ENABLEPROG : Z;
  USBASP_FUNC_WRITEFLASH : Z;
  USBASP_FUNC_READEEPROM : Z;
  USBASP_FUNC_WRITEEEPROM : Z;
  USBASP_FUNC_SETLONGADDRESS : Z;
  USBASP_FUNC_SETISPSCK : Z;
  PROG_BLOCKFLAG_FIRST : Z;
  PROG_BLOCKFLAG_LAST : Z;
  USBASP_ISP_SCK_AUTO : Z;
  USBASP_ISP_SCK_8 : Z;
  SLOW_SCK_NUM : Z
}.

(** The opcodes usbFunctionSetup compares [data[1]] with, in the order of
    its [if] chain. *)
Definition known_funcs `{usbasp_h} : list Z :=
  [USBASP_FUNC_CONNECT; USBASP_FUNC_DISCONNECT; USBASP_FUNC_TRANSMIT;
   USBASP_FUNC_READFLASH; USBASP_FUNC_READEEPROM; USBASP_FUNC_ENABLEPROG;
   USBASP_FUNC_WRITEFLASH; USBASP_FUNC_WRITEEEPROM;
   USBASP_FUNC_SETLONGADDRESS; USBASP_FUNC_SETISPSCK].

(** The ten opcodes are pairwise different. *)
Definition funcs_distinct `{usbasp_h} : Prop := NoDup known_funcs.

(** The four commands that carry an inline 16-bit address. *)
Definition transfer_funcs `{usbasp_h} : list Z :=
  [USBASP_FUNC_READFLASH; USBASP_FUNC_READEEPROM;
   USBASP_FUNC_WRITEFLASH; USBASP_FUNC_WRITEEEPROM].

(** The values of the upstream usbasp.h, used for concrete runs. *)
Definition reference_usbasp_h : usbasp_h := {|
  USBASP_FUNC_CONNECT := 1;
  USBASP_FUNC_DISCONNECT := 2;
  USBASP_FUNC_TRANSMIT := 3;
  USBASP_FUNC_READFLASH := 4;
  USBASP_FUNC_ENABLEPROG := 5;
  USBASP_FUNC_WRITEFLASH := 6;
  USBASP_FUNC_READEEPROM := 7;
  USBASP_FUNC_WRITEEEPROM := 8;
  USBASP_FUNC_SETLONGADDRESS := 9;
  USBASP_FUNC_SETISPSCK := 10;
  PROG_BLOCKFLAG_FIRST := 1;
  PROG_BLOCKFLAG_LAST := 2;
  USBASP_ISP_SCK_AUTO := 0;
  USBASP_ISP_SCK_8 := 5;
  SLOW_SCK_NUM := 2
|}.

(** The four commands that call into the ISP layer. *)
Definition target_funcs `{usbasp_h} : list Z :=
  [USBASP_FUNC_CONNECT; USBASP_FUNC_DISCONNECT;
   USBASP_FUNC_TRANSMIT; USBASP_FUNC_ENABLEPROG].

(** ** isp.h: the calls into the target programming transport *)

(** One constructor per function (or I/O macro) that main.c invokes, with
    the arguments of the call. *)
Inductive isp_call : Type :=
| SlowSckPin
| IspSetSCKOption (option : Z)
| LedRedOn
| LedRedOff
| IspConnect
| IspDisconnect
| IspTransmit (send_byte : Z)
| IspEnterProgrammingMode
| IspReadFlash (address : Z)
| IspReadEEPROM (address : Z)
| IspWriteFlash (address data pollmode : Z)
| IspFlushPage (address pollvalue : Z)
| IspWriteEEPROM (address data : Z).

#[global] Instance isp_call_eq_dec : EqDecision isp_call.
Proof. solve_decision. Defined.

Definition is_flush (c : isp_call) : bool :=
  match c with IspFlushPage _ _ => true | _ => false end.

(** Number of [ispFlushPage] invocations in a run of calls. *)
Definition count_flush (l : list isp_call) : nat := length (filter is_flush l).

(** ** The globals of main.c *)

Inductive msg_ptr : Type := NullPtr | ReplyBufferPtr.

Record state : Type := mkState {
  replyBuffer : list Z;          (* static uchar replyBuffer[8] *)
  prog_state : prog_state_t;     (* static uchar *)
  prog_sck : Z;                  (* static uchar *)
  prog_address_newmode : Z;      (* static uchar *)
  prog_address : Z;              (* static unsigned long *)
  prog_nbytes : Z;               (* static unsigned int *)
  prog_pagesize : Z;             (* static unsigned int *)
  prog_blockflags : Z;           (* static uchar *)
  prog_pagecounter : Z;          (* static uchar *)
  usbMsgPtr : msg_ptr;           (* usbdrv.h *)
  isp_log : list isp_call        (* the calls made so far, oldest first *)
}.

Definition set_replyBuffer (v : list Z) (s : state) : state :=
  mkState v (prog_state s) (prog_sck s) (prog_address_newmode s)
    (prog_address s) (prog_nbytes s) (prog_pagesize s) (prog_blockflags s)
    (prog_pagecounter s) (usbMsgPtr s) (isp_log s).
Definition set_prog_state (v : prog_state_t) (s : state) : state :=
  mkState (replyBuffer s) v (prog_sck s) (prog_address_newmode s)
    (prog_address s) (prog_nbytes s) (prog_pagesize s) (prog_blockflags s)
    (prog_pagecounter s) (usbMsgPtr s) (isp_log s).
Definition set_prog_sck (v : Z) (s : state) : state :=
  mkState (replyBuffer s) (prog_state s) v (prog_address_newmode s)
    (prog_address s) (prog_nbytes s) (prog_pagesize s) (prog_blockflags s)
    (prog_pagecounter s) (usbMsgPtr s) (isp_log s).
Definition set_prog_address_newmode (v : Z) (s : state) : state :=
  mkState (replyBuffer s) (prog_state s) (prog_sck s) v
    (prog_address s) (prog_nbytes s) (prog_pagesize s) (prog_blockflags s)
    (prog_pagecounter s) (usbMsgPtr s) (isp_log s).
Definition set_prog_address (v : Z) (s : state) : state :=
  mkState (replyBuffer s) (prog_state s) (prog_sck s) (prog_address_newmode s)
    v (prog_nbytes s) (prog_pagesize s) (prog_blockflags s)
    (prog_pagecounter s) (usbMsgPtr s) (isp_log s).
Definition set_prog_nbytes (v : Z) (s : state) : state :=
  mkState (replyBuffer s) (prog_state s) (prog_sck s) (prog_address_newmode s)
    (prog_address s) v (prog_pagesize s) (prog_blockflags s)
    (prog_pagecounter s) (usbMsgPtr s) (isp_log s).
Definition set_prog_pagesize (v : Z) (s : state) : state :=
  mkState (replyBuffer s) (prog_state s) (prog_sck s) (prog_address_newmode s)
    (prog_address s) (prog_nbytes s) v (prog_blockflags s)
    (prog_pagecounter s) (usbMsgPtr s) (isp_log s).
Definition set_prog_blockflags (v : Z) (s : state) : state :=
  mkState (replyBuffer s) (prog_state s) (prog_sck s) (prog_address_newmode s)
    (prog_address s) (prog_nbytes s) (prog_pagesize s) v
    (prog_pagecounter s) (usbMsgPtr s) (isp_log s).
Definition set_prog_pagecounter (v : Z) (s : state) : state :=
  mkState (replyBuffer s) (prog_state s) (prog_sck s) (prog_address_newmode s)
    (prog_address s) (prog_nbytes s) (prog_pagesize s) (prog_blockflags s)
    v (usbMsgPtr s) (isp_log s).
Definition set_usbMsgPtr (v : msg_ptr) (s : state) : state :=
  mkState (replyBuffer s) (prog_state s) (prog_sck s) (prog_address_newmode s)
    (prog_address s) (prog_nbytes s) (prog_pagesize s) (prog_blockflags s)
    (prog_pagecounter s) v (isp_log s).
Definition set_isp_log (v : list isp_call) (s : state) : state :=
  mkState (replyBuffer s) (prog_state s) (prog_sck s) (prog_address_newmode s)
    (prog_address s) (prog_nbytes s) (prog_pagesize s) (prog_blockflags s)
    (prog_pagecounter s) (usbMsgPtr s) v.

(** The calls made between an earlier state [s] and a later state [s']. *)
Definition calls_since (s s' : state) : list isp_call :=
  drop (length (isp_log s)) (isp_log s').

(** Every counter of the session holds a value of its C type. *)
Definition session_ok (s : state) : Prop :=
  0 <= prog_address s < 4294967296 /\
  0 <= prog_nbytes s < 65536 /\
  0 <= prog_pagesize s < 65536 /\
  is_uchar (prog_blockflags s) /\
  is_uchar (prog_pagecounter s).

(** [data[i]] on a C array of bytes. *)
Notation "d .[ i ]" := (d !!! i%nat)
  (at level 1, i at level 200, left associativity, format "d .[ i ]").

(** A command descriptor is [uchar data[8]]. *)
Definition descriptor_ok (data : list Z) : Prop :=
  length data = 8%nat /\ Forall is_uchar data.

(** The target and the board behind isp.h: the value each call returns,
    which may depend on every call made before it. *)
Class isp_h : Type := {
  isp_reply : list isp_call -> isp_call -> Z
}.

Section Firmware.

Context `{usbasp_h} `{isp_h}.

(** The globals as the C start-up code leaves them. *)
Definition init_state : state :=
  mkState (replicate 8 0) PROG_STATE_IDLE USBASP_ISP_SCK_AUTO 0 0 0 0 0 0
    NullPtr [].

(** Perform one call: ask the environment for the result and log the call. *)
Definition isp (c : isp_call) (st : state) : Z * state :=
  (isp_reply (isp_log st) c, set_isp_log (isp_log st ++ [c]) st).

Definition SLOW_SCK_PIN (st : state) : Z * state := isp SlowSckPin st.
Definition ispSetSCKOption (option : Z) (st : state) : state :=
  snd (isp (IspSetSCKOption option) st).
Definition ledRedOn (st : state) : state := snd (isp LedRedOn st).
Definition ledRedOff (st : state) : state := snd (isp LedRedOff st).
Definition ispConnect (st : state) : state := snd (isp IspConnect st).
Definition ispDisconnect (st : state) : state := snd (isp IspDisconnect st).
Definition ispTransmit (send_byte : Z) (st : state) : Z * state :=
  isp (IspTransmit send_byte) st.
Definition ispEnterProgrammingMode (st : state) : Z * state :=
  isp IspEnterProgrammingMode st.
Definition ispReadFlash (address : Z) (st : state) : Z * state :=
  isp (IspReadFlash address) st.
Definition ispReadEEPROM (address : Z) (st : state) : Z * state :=
  isp (IspReadEEPROM address) st.
Definition ispWriteFlash (address data pollmode : Z) (st : state) : state :=
  snd (isp (IspWriteFlash address data pollmode) st).
Definition ispFlushPage (address pollvalue : Z) (st : state) : state :=
  snd (isp (IspFlushPage address pollvalue) st).
Definition ispWriteEEPROM (address data : Z) (st : state) : state :=
  snd (isp (IspWriteEEPROM address data) st).

(** ** usbFunctionSetup *)

(** [(data[hi] << 8) | data[lo]], an [int]. *)
Definition word_at (data : list Z) (hi lo : nat) : Z :=
  int16 (Z.lor (Z.shiftl (data !!! hi) 8) (data !!! lo)).

(** The [unsigned long] loaded from the address of [data[2]], on the
    little-endian AVR. *)
Definition long_at2 (data : list Z) : Z :=
  wrap32 (Z.lor data.[2] (Z.lor (Z.shiftl data.[3] 8)
           (Z.lor (Z.shiftl data.[4] 16) (Z.shiftl data.[5] 24)))).

(** The [if] chain of the function; the result is [len] and the state
    before [usbMsgPtr] is set. *)
Definition setup_chain (data : list Z) (st : state) : Z * state :=
  if decide (data.[1] = USBASP_FUNC_CONNECT) then
    let '(pin, st) := SLOW_SCK_PIN st in
    let st :=
      if decide (Z.land pin (Z.shiftl 1 SLOW_SCK_NUM) = 0)
      then ispSetSCKOption USBASP_ISP_SCK_8 st
      else ispSetSCKOption (prog_sck st) st in
    let st := set_prog_address_newmode 0 st in
    let st := ledRedOn st in
    let st := ispConnect st in
    (0, st)
  else if decide (data.[1] = USBASP_FUNC_DISCONNECT) then
    let st := ispDisconnect st in
    let st := ledRedOff st in
    (0, st)
  else if decide (data.[1] = USBASP_FUNC_TRANSMIT) then
    let '(r, st) := ispTransmit data.[2] st in
    let st := set_replyBuffer (<[0%nat := r]> (replyBuffer st)) st in
    let '(r, st) := ispTransmit data.[3] st in
    let st := set_replyBuffer (<[1%nat := r]> (replyBuffer st)) st in
    let '(r, st) := ispTransmit data.[4] st in
    let st := set_replyBuffer (<[2%nat := r]> (replyBuffer st)) st in
    let '(r, st) := ispTransmit data.[5] st in
    let st := set_replyBuffer (<[3%nat := r]> (replyBuffer st)) st in
    (4, st)
  else if decide (data.[1] = USBASP_FUNC_READFLASH) then
    let st :=
      if decide (prog_address_newmode st = 0)
      then set_prog_address (wrap32 (word_at data 3 2)) st else st in
    let st := set_prog_nbytes (wrap16 (word_at data 7 6)) st in
    let st := set_prog_state PROG_STATE_READFLASH st in
    (255, st)
  else if decide (data.[1] = USBASP_FUNC_READEEPROM) then
    let st :=
      if decide (prog_address_newmode st = 0)
      then set_prog_address (wrap32 (word_at data 3 2)) st else st in
    let st := set_prog_nbytes (wrap16 (word_at data 7 6)) st in
    let st := set_prog_state PROG_STATE_READEEPROM st in
    (255, st)
  else if decide (data.[1] = USBASP_FUNC_ENABLEPROG) then
    let '(r, st) := ispEnterProgrammingMode st in
    let st := set_replyBuffer (<[0%nat := r]> (replyBuffer st)) st in
    (1, st)
  else if decide (data.[1] = USBASP_FUNC_WRITEFLASH) then
    let st :=
      if decide (prog_address_newmode st = 0)
      then set_prog_address (wrap32 (word_at data 3 2)) st else st in
    let st := set_prog_pagesize data.[4] st in
    let st := set_prog_blockflags (Z.land data.[5] 15) st in
    let st :=
      set_prog_pagesize
        (wrap16 (prog_pagesize st
                 + wrap16 (Z.shiftl (Z.land data.[5] 240) 4))) st in
    let st :=
      if decide (Z.land (prog_blockflags st) PROG_BLOCKFLAG_FIRST <> 0)
      then set_prog_pagecounter (wrap8 (prog_pagesize st)) st else st in
    let st := set_prog_nbytes (wrap16 (word_at data 7 6)) st in
    let st := set_prog_state PROG_STATE_WRITEFLASH st in
    (255, st)
  else if decide (data.[1] = USBASP_FUNC_WRITEEEPROM) then
    let st :=
      if decide (prog_address_newmode st = 0)
      then set_prog_address (wrap32 (word_at data 3 2)) st else st in
    let st := set_prog_pagesize 0 st in
    let st := set_prog_blockflags 0 st in
    let st := set_prog_nbytes (wrap16 (word_at data 7 6)) st in
    let st := set_prog_state PROG_STATE_WRITEEEPROM st in
    (255, st)
  else if decide (data.[1] = USBASP_FUNC_SETLONGADDRESS) then
    let st := set_prog_address_newmode 1 st in
    let st := set_prog_address (long_at2 data) st in
    (0, st)
  else if decide (data.[1] = USBASP_FUNC_SETISPSCK) then
    let st := set_prog_sck data.[2] st in
    let st := set_replyBuffer (<[0%nat := 0]> (replyBuffer st)) st in
    (1, st)
  else (0, st).

Definition usbFunctionSetup (data : list Z) (st : state) : Z * state :=
  let '(len, st) := setup_chain data st in
  (len, set_usbMsgPtr ReplyBufferPtr st).

(** ** usbFunctionRead *)

(** One iteration of the [for] loop: the byte stored in [data[i]] and the
    state after [prog_address++]. *)
Definition read_iteration (st : state) : Z * state :=
  let '(b, st) :=
    if decide (prog_state st = PROG_STATE_READFLASH)
    then ispReadFlash (prog_address st) st
    else ispReadEEPROM (prog_address st) st in
  (b, set_prog_address (wrap32 (prog_address st + 1)) st).

(** [for (i = 0; i < len; i++)]: the bytes stored in [data[0 .. len-1]], in
    order. *)
Fixpoint read_loop (n : nat) (st : state) : list Z * state :=
  match n with
  | O => ([], st)
  | S n' =>
      let '(b, st) := read_iteration st in
      let '(bs, st) := read_loop n' st in
      (b :: bs, st)
  end.

(** The result is the returned [uchar], the bytes written to [data], and
    the state. *)
Definition usbFunctionRead (len : Z) (st : state) : Z * list Z * state :=
  if decide (prog_state st <> PROG_STATE_READFLASH
             /\ prog_state st <> PROG_STATE_READEEPROM)
  then (255, [], st)
  else
    let '(data, st) := read_loop (Z.to_nat len) st in
    let st :=
      if decide (len < 8) then set_prog_state PROG_STATE_IDLE st else st in
    (len, data, st).

(** ** usbFunctionWrite *)

(** One iteration of the [for] loop on the byte [b = data[i]], with the
    local [retVal]. *)
Definition write_iteration (b : Z) (rs : Z * state) : Z * state :=
  let '(retVal, st) := rs in
  let st :=
    if decide (prog_state st = PROG_STATE_WRITEFLASH) then
      if decide (prog_pagesize st = 0) then
        ispWriteFlash (prog_address st) b 1 st
      else
        let st := ispWriteFlash (prog_address st) b 0 st in
        let st := set_prog_pagecounter (wrap8 (prog_pagecounter st - 1)) st in
        if decide (prog_pagecounter st = 0) then
          let st := ispFlushPage (prog_address st) b st in
          set_prog_pagecounter (wrap8 (prog_pagesize st)) st
        else st
    else ispWriteEEPROM (prog_address st) b st in
  let st := set_prog_nbytes (wrap16 (prog_nbytes st - 1)) st in
  let '(retVal, st) :=
    if decide (prog_nbytes st = 0) then
      let st := set_prog_state PROG_STATE_IDLE st in
      let st :=
        if decide (Z.land (prog_blockflags st) PROG_BLOCKFLAG_LAST <> 0
                   /\ prog_pagecounter st <> prog_pagesize st)
        then ispFlushPage (prog_address st) b st
        else st in
      (1, st)
    else (retVal, st) in
  let st := set_prog_address (wrap32 (prog_address st + 1)) st in
  (retVal, st).

(** What one iteration does to the globals; it does not depend on
    [retVal]. *)
Definition write_byte (b : Z) (st : state) : state :=
  (write_iteration b (0, st)).2.

Fixpoint write_loop (data : list Z) (rs : Z * state) : Z * state :=
  match data with
  | [] => rs
  | b :: data' => write_loop data' (write_iteration b rs)
  end.

(** The chunk [data[0 .. len-1]] is the list [data]. *)
Definition usbFunctionWrite (data : list Z) (st : state) : Z * state :=
  if decide (prog_state st <> PROG_STATE_WRITEFLASH
             /\ prog_state st <> PROG_STATE_WRITEEEPROM)
  then (255, st)
  else write_loop data (0, st).

(** ** Sessions: the transport calling an engine chunk after chunk *)

(** The state after the loop body has run on each byte of [bytes]. *)
Definition write_bytes (bytes : list Z) (st : state) : state :=
  fold_left (fun s b => write_byte b s) bytes st.

(** [prog_nbytes] becomes zero during the call on [data]: it is zero after
    the loop body has run on one of the bytes. *)
Definition reaches_zero (data : list Z) (st : state) : Prop :=
  exists k, (k < length data)%nat
            /\ prog_nbytes (write_bytes (take (S k) data) st) = 0.

Fixpoint write_session (chunks : list (list Z)) (st : state)
  : list Z * state :=
  match chunks with
  | [] => ([], st)
  | c :: cs =>
      let '(r, st) := usbFunctionWrite c st in
      let '(rs, st) := write_session cs st in
      (r :: rs, st)
  end.

(** After the claim's words, not after the loop: the calls of a paged flash
    write of [bytes] at [a], when [j] bytes of the session came before.
    Every byte is loaded into the page buffer at its address, and the page
    is flushed after each byte that completes a run of [P] bytes counted
    from the start of the session. *)
Fixpoint paged_calls (P a j : Z) (bytes : list Z) : list isp_call :=
  match bytes with
  | [] => []
  | b :: bs =>
      IspWriteFlash (wrap32 (a + j)) b 0
      :: (if decide ((j + 1) mod P = 0)
          then [IspFlushPage (wrap32 (a + j)) b] else [])
      ++ paged_calls P a (j + 1) bs
  end.

(** The flush that ends a paged transfer on a partly filled page: issued on
    the last byte of the transfer, at the address of that byte. *)
Definition final_flush (a : Z) (bytes : list Z) : list isp_call :=
  match last bytes with
  | Some b => [IspFlushPage (wrap32 (a + Z.of_nat (length bytes) - 1)) b]
  | None => []
  end.

(** The read function the mode selects. *)
Definition read_call (m : prog_state_t) (a : Z) : isp_call :=
  if decide (m = PROG_STATE_READFLASH) then IspReadFlash a
  else IspReadEEPROM a.

(** After the claim's words, not after the loop: the calls that read [n]
    consecutive addresses of the target starting at [a], and the bytes the
    target answers when these calls come after the calls [h]. *)
Fixpoint read_calls (rd : Z -> isp_call) (a : Z) (n : nat) : list isp_call :=
  match n with
  | O => []
  | S n' => rd a :: read_calls rd (wrap32 (a + 1)) n'
  end.

Fixpoint target_bytes (rd : Z -> isp_call) (h : list isp_call) (a : Z)
    (n : nat) : list Z :=
  match n with
  | O => []
  | S n' =>
      isp_reply h (rd a) :: target_bytes rd (h ++ [rd a]) (wrap32 (a + 1)) n'
  end.

(** The state the loop leaves after [n] iterations. *)
Definition after_read (n : nat) (st : state) : state :=
  set_prog_address (wrap32 (prog_address st + Z.of_nat n))
    (set_isp_log
       (isp_log st
        ++ read_calls (read_call (prog_state st)) (prog_address st) n)
       st).

(** The chunk lengths of a read transfer: every chunk but the last is full
    (at least the 8 bytes of the transport), none is negative. *)
Fixpoint full_until_last (lens : list Z) : Prop :=
  match lens with
  | [] => True
  | [len] => 0 <= len
  | len :: lens' => 8 <= len /\ full_until_last lens'
  end.

Fixpoint read_session (lens : list Z) (st : state)
  : list (list Z) * state :=
  match lens with
  | [] => ([], st)
  | len :: lens' =>
      let '(_, data, st) := usbFunctionRead len st in
      let '(ds, st) := read_session lens' st in
      (data :: ds, st)
  end.

(** ** The transport driving the three entry points *)

(** One call of the USB driver into main.c. *)
Inductive usb_call : Type :=
| UsbSetup (data : list Z)
| UsbRead (len : Z)
| UsbWrite (data : list Z).

Definition usb_step (c : usb_call) (st : state) : state :=
  match c with
  | UsbSetup data => (usbFunctionSetup data st).2
  | UsbRead len => (usbFunctionRead len st).2
  | UsbWrite data => (usbFunctionWrite data st).2
  end.

(** The state after a sequence of calls, oldest first. *)
Definition usb_run (calls : list usb_call) (st : state) : state :=
  fold_left (fun s c => usb_step c s) calls st.

(** A call that is the connect command. *)
Definition is_connect (c : usb_call) : Prop :=
  match c with
  | UsbSetup data => data.[1] = USBASP_FUNC_CONNECT
  | _ => False
  end.

(** What every state the transport can reach satisfies: the counters are
    within their types, the reply buffer has its 8 bytes, and in
    write-EEPROM mode the page size and the block flags are zero. *)
Definition state_inv (st : state) : Prop :=
  session_ok st
  /\ length (replyBuffer st) = 8%nat
  /\ (prog_state st = PROG_STATE_WRITEEEPROM ->
      prog_pagesize st = 0 /\ prog_blockflags st = 0).

(** ** What a transfer is expected to call and to return *)

(** The calls of an unpaged flash write and of an EEPROM write of [bytes]
    at [a]: one write per byte, at consecutive addresses. *)
Definition unpaged_calls (a : Z) (bytes : list Z) : list isp_call :=
  imap (fun i b => IspWriteFlash (wrap32 (a + Z.of_nat i)) b 1) bytes.

Definition eeprom_calls (a : Z) (bytes : list Z) : list isp_call :=
  imap (fun i b => IspWriteEEPROM (wrap32 (a + Z.of_nat i)) b) bytes.

(** The values usbFunctionWrite returns over the chunks of a transfer of
    [remaining] bytes: 0 while bytes are missing, 1 for the chunk that
    brings the last byte, 0xFF for every chunk after it. *)
Fixpoint session_returns (remaining : Z) (chunks : list (list Z)) : list Z :=
  match chunks with
  | [] => []
  | c :: cs =>
      if decide (remaining <= 0) then 255 :: session_returns remaining cs
      else if decide (remaining <= Z.of_nat (length c))
           then 1 :: session_returns 0 cs
           else 0 :: session_returns (remaining - Z.of_nat (length c)) cs
  end.

(** The number of bytes between two flushes that an 8-bit counter loaded
    with the page size [P] gives: [P mod 256], or 256 when that is 0. *)
Definition flush_period (P : Z) : Z :=
  if decide (wrap8 P = 0) then 256 else wrap8 P.

(** The value of [(hi << 8) | lo] converted to [unsigned long]: the 16-bit
    word, with the upper half set when its bit 15 is. *)
Definition legacy_address (hi lo : Z) : Z :=
  if decide (hi < 128) then hi * 256 + lo
  else 4294901760 + hi * 256 + lo.

End Firmware.

(** ** Reference runs

    Concrete sessions, with the constants of the upstream header and a
    sample target. *)

(** A target whose flash holds [a mod 256] at address [a] and whose EEPROM
    holds [(255 - a) mod 256]; a transmit answers with the byte sent plus
    the number of calls made before. *)
Definition demo_isp : isp_h := {|
  isp_reply h c :=
    match c with
    | IspReadFlash a => wrap8 a
    | IspReadEEPROM a => wrap8 (255 - a)
    | IspTransmit b => wrap8 (b + Z.of_nat (length h))
    | _ => 0
    end
|}.

(** The same target on a board whose slow-clock jumper is open: the pin
    register reads with bit 2 set. *)
Definition open_jumper_isp : isp_h := {|
  isp_reply h c :=
    match c with
    | SlowSckPin => 4
    | IspReadFlash a => wrap8 a
    | IspReadEEPROM a => wrap8 (255 - a)
    | IspTransmit b => wrap8 (b + Z.of_nat (length h))
    | _ => 0
    end
|}.

Module Reference.

#[local] Existing Instance reference_usbasp_h.
#[local] Existing Instance demo_isp.

(** [k] full chunks of 8 bytes, then one chunk of [r] bytes when [r > 0]. *)
Definition chunks_of (k r : nat) : list (list Z) :=
  replicate k (replicate 8 165)
  ++ (if decide (r = 0%nat) then [] else [replicate r 90]).

(** The state after a command on the state [st]. *)
Definition command (data : list Z) (st : state) : state :=
  (usbFunctionSetup data st).2.

(** Write-flash, page size 64, first block, 128 bytes. *)
Definition first_block_128 : state :=
  command [0; 6; 0; 0; 64; 1; 128; 0] init_state.

(** Connect, then write-flash at address 0, page size 0x40, first block,
    0x40 bytes. *)
Definition connected_block_64 : state :=
  command [0; 6; 0; 0; 64; 1; 64; 0]
    (command [0; 1; 0; 0; 0; 0; 0; 0] init_state).

(** Write-flash, page size 64, first and last block, 100 bytes. *)
Definition only_block_100 : state :=
  command [0; 6; 0; 0; 64; 3; 100; 0] init_state.

(** A write of 264 bytes in two blocks, page size 64: the state after the
    first block of 200 bytes, and the state at the start of the second and
    last block of 64 bytes. *)
Definition after_block_200 : state :=
  (write_session (chunks_of 25 0)
     (command [0; 6; 0; 0; 64; 1; 200; 0] init_state)).2.
Definition last_block_64 : state :=
  command [0; 6; 200; 0; 64; 2; 64; 0] after_block_200.

(** A write of 70 bytes in two blocks, page size 64: the state after the
    first block of 60 bytes, and at the start of the last block of 10. *)
Definition after_block_60 : state :=
  (write_session (chunks_of 7 4)
     (command [0; 6; 0; 0; 64; 1; 60; 0] init_state)).2.
Definition last_block_10 : state :=
  command [0; 6; 60; 0; 64; 2; 10; 0] after_block_60.

(** Write-flash with page sizes above 255: 256 (first block, 256 bytes),
    512 (first block, 512 bytes) and 300 (first and last block, 100
    bytes). *)
Definition page_256 : state :=
  command [0; 6; 0; 0; 0; 17; 0; 1] init_state.
Definition page_512 : state :=
  command [0; 6; 0; 0; 0; 33; 0; 2] init_state.
Definition page_300 : state :=
  command [0; 6; 0; 0; 44; 19; 100; 0] init_state.

(** Unpaged write-flash of 3 bytes at address 16, and a chunk of 8 bytes. *)
Definition flash_write_3 : state :=
  command [0; 6; 16; 0; 0; 0; 3; 0] init_state.
Definition chunk_8 : list Z := [1; 2; 3; 4; 5; 6; 7; 8].

(** Read-EEPROM of 10 bytes at address 16. *)
Definition eeprom_read_10 : state :=
  command [0; 7; 16; 0; 0; 0; 10; 0] init_state.

(** Set-long-address 0x01020304, then write-flash with the inline address
    0x9999. *)
Definition long_address_cmd : list Z := [0; 9; 4; 3; 2; 1; 0; 0].
Definition write_flash_9999 : list Z := [0; 6; 153; 153; 64; 1; 64; 0].

(** Write-flash with the page size 0x340 and the first-block flag. *)
Definition write_flash_page_832 : list Z := [0; 6; 0; 0; 64; 49; 0; 1].

(** A descriptor with an opcode that usbasp.h does not define. *)
Definition unknown_cmd : list Z := [0; 42; 1; 2; 3; 4; 5; 6].

(** More descriptors: connect, transmit of the bytes 10 20 30 40, set-SCK
    with the option 3, write-flash with the page size 300 and both flags,
    write-EEPROM of no byte. *)
Definition connect_cmd : list Z := [0; 1; 0; 0; 0; 0; 0; 0].
Definition transmit_cmd : list Z := [0; 3; 10; 20; 30; 40; 0; 0].
Definition set_sck_cmd : list Z := [0; 10; 3; 0; 0; 0; 0; 0].
Definition write_flash_page_300 : list Z := [0; 6; 0; 0; 44; 19; 100; 0].
Definition eeprom_write_0 : state :=
  command [0; 8; 16; 0; 0; 0; 0; 0] init_state.

(** Write-flash of 0 bytes at address 16, page size 0, no block flag, and
    a chunk of two bytes. *)
Definition flash_write_0 : state :=
  command [0; 6; 16; 0; 0; 0; 0; 0] init_state.
Definition chunk_2 : list Z := [7; 8].

(** The first block (200 bytes, page size 64) of the write of 264 bytes,
    and the command of its second block. *)
Definition first_block_200 : state :=
  command [0; 6; 0; 0; 64; 1; 200; 0] init_state.
Definition second_block_cmd : list Z := [0; 6; 200; 0; 64; 2; 64; 0].

(** The new addressing mode, set at start-up. *)
Definition long_mode : state := command long_address_cmd init_state.

(** A flash block of 3 bytes, then a write-EEPROM command of 3 bytes. *)
Definition calls_to_eeprom_write : list usb_call :=
  [UsbSetup [0; 6; 0; 0; 64; 1; 3; 0]; UsbWrite [1; 2; 3];
   UsbSetup [0; 8; 16; 0; 0; 0; 3; 0]].

(** Write-flash, a chunk and a read request, none of them a connect. *)
Definition calls_without_connect : list usb_call :=
  [UsbSetup write_flash_9999; UsbWrite chunk_8; UsbRead 8].

End Reference.

Arguments write_byte : simpl never.
Arguments write_iteration : simpl never.
Arguments read_iteration : simpl never.
Arguments wrap8 : simpl never.
Arguments wrap16 : simpl never.
Arguments wrap32 : simpl never.
Arguments int16 : simpl never.

(** * Proofs *)

(** ** Machine integers *)

Lemma wrap8_small x : 0 <= x < 256 -> wrap8 x = x.
Proof. intros Hx. unfold wrap8. apply Z.mod_small, Hx. Qed.

Lemma wrap16_small x : 0 <= x < 65536 -> wrap16 x = x.
Proof. intros Hx. unfold wrap16. apply Z.mod_small, Hx. Qed.

Lemma wrap32_small x : 0 <= x < 4294967296 -> wrap32 x = x.
Proof. intros Hx. unfold wrap32. apply Z.mod_small, Hx. Qed.

Lemma wrap8_range x : 0 <= wrap8 x < 256.
Proof. unfold wrap8. apply Z.mod_pos_bound. lia. Qed.

Lemma wrap16_range x : 0 <= wrap16 x < 65536.
Proof. unfold wrap16. apply Z.mod_pos_bound. lia. Qed.

Lemma wrap32_range x : 0 <= wrap32 x < 4294967296.
Proof. unfold wrap32. apply Z.mod_pos_bound. lia. Qed.

(** [x & m] lies between 0 and the mask [m]. *)
Lemma land_mask_range x m : 0 <= m -> 0 <= Z.land x m <= m.
Proof.
  intros Hm. split; [apply Z.land_nonneg; now right|].
  assert (Z.land (Z.land x m) (Z.ldiff m x) = 0) as Hdisj.
  { apply Z.bits_inj'. intros k Hk.
    rewrite !Z.land_spec, Z.ldiff_spec, Z.bits_0.
    destruct (Z.testbit x k), (Z.testbit m k); reflexivity. }
  assert (Z.land x m + Z.ldiff m x = m) as Hsum.
  { rewrite Z.add_nocarry_lxor, Z.lxor_lor by exact Hdisj.
    rewrite Z.lor_comm, (Z.land_comm x m). apply Z.lor_ldiff_and. }
  assert (0 <= Z.ldiff m x) by (apply Z.ldiff_nonneg; now left).
  lia.
Qed.

(** Counting bytes in pages of [P]: the next byte either completes a page
    or it does not. *)
Lemma succ_div_mod P j :
  0 < P -> 0 <= j ->
  ((j + 1) mod P = 0 /\ j mod P = P - 1 /\ (j + 1) / P = j / P + 1)
  \/ ((j + 1) mod P <> 0 /\ (j + 1) mod P = j mod P + 1
      /\ (j + 1) / P = j / P).
Proof.
  intros HP Hj.
  pose proof (Z.div_mod j P ltac:(lia)) as E1.
  pose proof (Z.mod_pos_bound j P HP) as B1.
  destruct (decide (j mod P = P - 1)) as [Hlast|Hmid].
  - left.
    assert (0 = (j + 1) mod P)
      by (apply Z.mod_unique with (q := j / P + 1); nia).
    assert (j / P + 1 = (j + 1) / P)
      by (apply Z.div_unique with (r := 0); nia).
    lia.
  - right.
    assert (j mod P + 1 = (j + 1) mod P)
      by (apply Z.mod_unique with (q := j / P); nia).
    assert (j / P = (j + 1) / P)
      by (apply Z.div_unique with (r := j mod P + 1); nia).
    lia.
Qed.

Lemma ceil_div K P :
  0 < P -> K mod P <> 0 -> (K + P - 1) / P = K / P + 1.
Proof.
  intros HP Hr. pose proof (Z.div_mod K P ltac:(lia)).
  pose proof (Z.mod_pos_bound K P HP).
  symmetry. apply Z.div_unique with (r := K mod P - 1); nia.
Qed.

Lemma wrap32_add_l a j : wrap32 (wrap32 a + j) = wrap32 (a + j).
Proof. unfold wrap32. apply Z.add_mod_idemp_l. lia. Qed.

Lemma wrap16_sub_l n j : wrap16 (wrap16 n - j) = wrap16 (n - j).
Proof. unfold wrap16. apply Zminus_mod_idemp_l. Qed.

Lemma wrap16_neg x : -65536 <= x < 0 -> wrap16 x = x + 65536.
Proof.
  intros Hx. unfold wrap16. symmetry.
  apply Z.mod_unique with (q := -1); lia.
Qed.

Lemma wrap16_zero n j :
  0 <= n < 65536 -> 0 <= j < 65536 -> wrap16 (n - j) = 0 -> j = n.
Proof.
  intros Hn Hj. unfold wrap16.
  intros Hm. apply Z.mod_divide in Hm; [|lia].
  destruct Hm as [q Hq]. nia.
Qed.

(** [(hi << 8) | lo] on a byte [lo]: the two operands share no bit. *)
Lemma lor_shiftl8 hi lo :
  0 <= lo < 256 -> Z.lor (Z.shiftl hi 8) lo = hi * 256 + lo.
Proof.
  intros Hlo.
  assert (Z.land (Z.shiftl hi 8) lo = 0) as Hdisj.
  { apply Z.bits_inj'. intros k Hk. rewrite Z.land_spec, Z.bits_0.
    destruct (decide (k < 8)) as [Hlt|Hge].
    - now rewrite Z.shiftl_spec_low by lia.
    - assert (Z.testbit lo k = false) as ->; [|apply andb_false_r].
      destruct (decide (lo = 0)) as [->|Hnz]; [apply Z.bits_0|].
      apply Z.bits_above_log2; [lia|].
      assert (Z.log2 lo < 8); [|lia].
      apply Z.log2_lt_pow2; [lia|]. change (2 ^ 8) with 256. lia. }
  rewrite <- Z.lxor_lor, <- Z.add_nocarry_lxor by exact Hdisj.
  rewrite Z.shiftl_mul_pow2 by lia. change (2 ^ 8) with 256. lia.
Qed.

Lemma int16_value x :
  0 <= x < 65536 -> int16 x = if decide (x < 32768) then x else x - 65536.
Proof.
  intros Hx. unfold int16. case_decide.
  - rewrite Z.mod_small by lia. lia.
  - assert ((x + 32768) mod 65536 = x - 32768) as ->; [|lia].
    symmetry. apply Z.mod_unique with (q := 1); lia.
Qed.

Lemma wrap16_int16 x : wrap16 (int16 x) = wrap16 x.
Proof.
  unfold wrap16, int16.
  rewrite Zminus_mod_idemp_l. f_equal. lia.
Qed.

(** ** The 8-bit page counter *)

Lemma flush_period_range P : 1 <= flush_period P <= 256.
Proof.
  unfold flush_period. pose proof (wrap8_range P). case_decide; lia.
Qed.

Lemma flush_period_wrap P : wrap8 (flush_period P) = wrap8 P.
Proof.
  unfold flush_period. case_decide as Hz; [now rewrite Hz|].
  unfold wrap8. apply Z.mod_mod. lia.
Qed.

Lemma flush_period_small P : 0 < P < 256 -> flush_period P = P.
Proof.
  intros HP. unfold flush_period. rewrite wrap8_small by lia.
  now rewrite decide_False by lia.
Qed.

(** The counter holds [Q - m] as a byte (0 stands for 256); decrementing it
    gives [Q - m - 1]. *)
Lemma counter_step Q m :
  1 <= Q <= 256 -> 0 <= m < Q -> wrap8 (wrap8 (Q - m) - 1) = Q - m - 1.
Proof.
  intros HQ Hm. destruct (decide (Q - m = 256)) as [E|E].
  - rewrite E. reflexivity.
  - rewrite (wrap8_small (Q - m)) by lia. apply wrap8_small. lia.
Qed.

Lemma div_add_mod n1 n2 P :
  0 < P ->
  n1 / P + (n1 mod P + n2) / P = (n1 + n2) / P
  /\ (n1 mod P + n2) mod P = (n1 + n2) mod P.
Proof.
  intros HP. pose proof (Z.div_mod n1 P ltac:(lia)) as E.
  replace (n1 + n2) with (n1 mod P + n2 + n1 / P * P) by lia.
  rewrite Z.div_add, Z.mod_add by lia. lia.
Qed.

(** ** The log only grows *)

Lemma calls_since_app s s' l :
  isp_log s' = isp_log s ++ l -> calls_since s s' = l.
Proof.
  unfold calls_since. intros ->. apply drop_app_length.
Qed.

Lemma count_flush_app l1 l2 :
  count_flush (l1 ++ l2) = (count_flush l1 + count_flush l2)%nat.
Proof.
  unfold count_flush. now rewrite filter_app, length_app.
Qed.

Section FirmwareProofs.

Context `{usbasp_h} `{isp_h}.

(** Reduce a field read from a chain of field updates, and nothing else. *)
Ltac state_simpl :=
  cbn [fst snd replyBuffer prog_state prog_sck prog_address_newmode
       prog_address prog_nbytes prog_pagesize prog_blockflags
       prog_pagecounter usbMsgPtr isp_log
       set_replyBuffer set_prog_state set_prog_sck set_prog_address_newmode
       set_prog_address set_prog_nbytes set_prog_pagesize set_prog_blockflags
       set_prog_pagecounter set_usbMsgPtr set_isp_log
       isp SLOW_SCK_PIN ispSetSCKOption ledRedOn ledRedOff ispConnect
       ispDisconnect ispTransmit ispEnterProgrammingMode ispReadFlash
       ispReadEEPROM ispWriteFlash ispFlushPage ispWriteEEPROM].

(** ** The loop body of usbFunctionWrite, field by field *)

Ltac write_byte_cases :=
  unfold write_byte, write_iteration, ispWriteFlash, ispFlushPage,
    ispWriteEEPROM, isp;
  simpl; repeat (case_decide; simpl); try reflexivity; try tauto.

(** The iteration sets [retVal] to 1 exactly when it leaves [prog_nbytes]
    at zero. *)
Lemma write_iteration_eq b r st :
  write_iteration b (r, st) =
  (if decide (prog_nbytes (write_byte b st) = 0) then 1 else r,
   write_byte b st).
Proof. write_byte_cases. Qed.

Lemma write_byte_address b st :
  prog_address (write_byte b st) = wrap32 (prog_address st + 1).
Proof. write_byte_cases. Qed.

Lemma write_byte_nbytes b st :
  prog_nbytes (write_byte b st) = wrap16 (prog_nbytes st - 1).
Proof. write_byte_cases. Qed.

Lemma write_byte_pagesize b st :
  prog_pagesize (write_byte b st) = prog_pagesize st.
Proof. write_byte_cases. Qed.

Lemma write_byte_blockflags b st :
  prog_blockflags (write_byte b st) = prog_blockflags st.
Proof. write_byte_cases. Qed.

(** The mode changes only in the branch [prog_nbytes == 0]. *)
Lemma write_byte_state b st :
  prog_state (write_byte b st) =
  if decide (wrap16 (prog_nbytes st - 1) = 0) then PROG_STATE_IDLE
  else prog_state st.
Proof. write_byte_cases. Qed.

(** ** The loop as a fold over the bytes of the chunk *)

Lemma write_bytes_snoc l b st :
  write_bytes (l ++ [b]) st = write_byte b (write_bytes l st).
Proof. unfold write_bytes. now rewrite fold_left_app. Qed.

Lemma write_bytes_app l1 l2 st :
  write_bytes (l1 ++ l2) st = write_bytes l2 (write_bytes l1 st).
Proof. unfold write_bytes. now rewrite fold_left_app. Qed.

Lemma write_bytes_nbytes l st :
  0 <= prog_nbytes st < 65536 ->
  prog_nbytes (write_bytes l st)
  = wrap16 (prog_nbytes st - Z.of_nat (length l)).
Proof.
  intros Hn. induction l as [|b l IH] using rev_ind.
  - simpl. rewrite Z.sub_0_r. symmetry. now apply wrap16_small.
  - rewrite write_bytes_snoc, write_byte_nbytes, IH, wrap16_sub_l.
    rewrite length_app. simpl. f_equal. lia.
Qed.

Lemma write_bytes_address l st :
  0 <= prog_address st < 4294967296 ->
  prog_address (write_bytes l st) =
  wrap32 (prog_address st + Z.of_nat (length l)).
Proof.
  intros Ha. induction l as [|b l IH] using rev_ind.
  - simpl. rewrite Z.add_0_r. symmetry. now apply wrap32_small.
  - rewrite write_bytes_snoc, write_byte_address, IH, wrap32_add_l.
    rewrite length_app. simpl. f_equal. lia.
Qed.

Lemma write_bytes_pagesize l st :
  prog_pagesize (write_bytes l st) = prog_pagesize st.
Proof.
  induction l as [|b l IH] using rev_ind; [reflexivity|].
  now rewrite write_bytes_snoc, write_byte_pagesize.
Qed.

Lemma write_bytes_blockflags l st :
  prog_blockflags (write_bytes l st) = prog_blockflags st.
Proof.
  induction l as [|b l IH] using rev_ind; [reflexivity|].
  now rewrite write_bytes_snoc, write_byte_blockflags.
Qed.

(** While fewer bytes than [prog_nbytes] have been consumed, the mode is the
    one the call started in. *)
Lemma write_bytes_state_before l st :
  0 <= prog_nbytes st < 65536 ->
  Z.of_nat (length l) < prog_nbytes st ->
  prog_state (write_bytes l st) = prog_state st.
Proof.
  intros Hn. induction l as [|b l IH] using rev_ind; [reflexivity|].
  rewrite length_app. simpl. intros Hl.
  rewrite write_bytes_snoc, write_byte_state, write_bytes_nbytes by done.
  rewrite wrap16_sub_l. case_decide as Hz; [|apply IH; lia].
  replace (prog_nbytes st - Z.of_nat (length l) - 1)
    with (prog_nbytes st - (Z.of_nat (length l) + 1)) in Hz by lia.
  apply wrap16_zero in Hz; lia.
Qed.

(** On the byte that makes [prog_nbytes] zero, and on every later byte of
    the same chunk (fewer than 65536 of them), the mode is idle. *)
Lemma write_bytes_state_after l st :
  0 <= prog_nbytes st < 65536 ->
  0 < prog_nbytes st <= Z.of_nat (length l) ->
  Z.of_nat (length l) < 65536 ->
  prog_state (write_bytes l st) = PROG_STATE_IDLE.
Proof.
  intros Hn. induction l as [|b l IH] using rev_ind; [simpl; lia|].
  rewrite length_app. simpl. intros Hl Hm.
  rewrite write_bytes_snoc, write_byte_state, write_bytes_nbytes by done.
  case_decide as Hz; [reflexivity|].
  rewrite wrap16_sub_l in Hz.
  assert (Z.of_nat (length l) + 1 <> prog_nbytes st) as Hne.
  { intros Heq. apply Hz. rewrite <- Heq.
    now replace (_ - _ - _) with 0 by lia. }
  apply IH; lia.
Qed.

(** ** The loop and its return value *)

Lemma write_loop_cons b data r st :
  write_loop (b :: data) (r, st) =
  write_loop data
    (if decide (prog_nbytes (write_byte b st) = 0) then 1 else r,
     write_byte b st).
Proof. cbn [write_loop]. now rewrite write_iteration_eq. Qed.

Lemma write_loop_snd data r st :
  snd (write_loop data (r, st)) = write_bytes data st.
Proof.
  revert r st. induction data as [|b data IH]; intros r st; [reflexivity|].
  rewrite write_loop_cons. apply IH.
Qed.

Lemma write_loop_sticky data st : fst (write_loop data (1, st)) = 1.
Proof.
  revert st. induction data as [|b data IH]; intros st; [reflexivity|].
  rewrite write_loop_cons. case_decide; apply IH.
Qed.

Lemma reaches_zero_cons b data st :
  reaches_zero (b :: data) st <->
  prog_nbytes (write_byte b st) = 0 \/ reaches_zero data (write_byte b st).
Proof.
  unfold reaches_zero. split.
  - intros [[|k] [Hk Hz]]; [left; exact Hz|right].
    exists k. split; [simpl in Hk; lia|exact Hz].
  - intros [Hz|[k [Hk Hz]]].
    + exists 0%nat. split; [simpl; lia|exact Hz].
    + exists (S k). split; [simpl; lia|exact Hz].
Qed.

Lemma write_loop_fst data r st :
  (reaches_zero data st -> fst (write_loop data (r, st)) = 1) /\
  (~ reaches_zero data st -> fst (write_loop data (r, st)) = r).
Proof.
  revert r st. induction data as [|b data IH]; intros r st.
  - split; [|reflexivity]. intros [k [Hk _]]. simpl in Hk. lia.
  - rewrite reaches_zero_cons, write_loop_cons. case_decide as Hz.
    + split; [intros _; apply write_loop_sticky|tauto].
    + destruct (IH r (write_byte b st)) as [IH1 IH2]. split; [|tauto].
      intros [Hz'|Hr]; [contradiction|auto].
Qed.

Lemma usbFunctionWrite_valid data st :
  prog_state st = PROG_STATE_WRITEFLASH
  \/ prog_state st = PROG_STATE_WRITEEEPROM ->
  usbFunctionWrite data st = write_loop data (0, st).
Proof.
  intros Hm. unfold usbFunctionWrite. case_decide as Hd; [|reflexivity].
  destruct Hd, Hm; contradiction.
Qed.

Lemma usbFunctionWrite_snd data st :
  prog_state st = PROG_STATE_WRITEFLASH
  \/ prog_state st = PROG_STATE_WRITEEEPROM ->
  snd (usbFunctionWrite data st) = write_bytes data st.
Proof.
  intros Hm. rewrite usbFunctionWrite_valid by done. apply write_loop_snd.
Qed.

(** The return value of the loop is 0 or 1. *)
Lemma write_loop_fst_01 data st :
  fst (write_loop data (0, st)) = 0 \/ fst (write_loop data (0, st)) = 1.
Proof.
  revert st. induction data as [|b data IH]; intros st; [now left|].
  rewrite write_loop_cons.
  case_decide; [right; apply write_loop_sticky|apply IH].
Qed.


(** ** usbFunctionRead *)

Lemma read_calls_length rd a n : length (read_calls rd a n) = n.
Proof.
  revert a. induction n as [|n IH]; intros a; simpl; [|rewrite IH]; done.
Qed.

Lemma read_calls_snoc rd a n :
  0 <= a < 4294967296 ->
  read_calls rd a (S n) =
  read_calls rd a n ++ [rd (wrap32 (a + Z.of_nat n))].
Proof.
  revert a. induction n as [|n IH]; intros a Ha.
  - simpl. now rewrite Z.add_0_r, wrap32_small.
  - change (read_calls rd a (S (S n)))
      with (rd a :: read_calls rd (wrap32 (a + 1)) (S n)).
    rewrite IH by apply wrap32_range. rewrite wrap32_add_l.
    now replace (a + 1 + Z.of_nat n) with (a + Z.of_nat (S n)) by lia.
Qed.

(** The [i]-th call reads address [a + i] (as an [unsigned long]). *)
Lemma read_calls_lookup rd a n i :
  0 <= a < 4294967296 -> (i < n)%nat ->
  read_calls rd a n !! i = Some (rd (wrap32 (a + Z.of_nat i))).
Proof.
  intros Ha. revert i. induction n as [|n IH]; intros i Hi; [lia|].
  rewrite read_calls_snoc by done.
  destruct (decide (i = n)) as [->|Hne].
  - rewrite lookup_app_r; rewrite read_calls_length; [|lia].
    now rewrite Nat.sub_diag.
  - rewrite lookup_app_l by (rewrite read_calls_length; lia).
    apply IH. lia.
Qed.


Lemma target_bytes_length rd h a n : length (target_bytes rd h a n) = n.
Proof.
  revert h a. induction n as [|n IH]; intros h a; simpl; [|rewrite IH]; done.
Qed.

Lemma target_bytes_lookup rd h a n i :
  0 <= a < 4294967296 -> (i < n)%nat ->
  target_bytes rd h a n !! i =
  Some (isp_reply (h ++ read_calls rd a i) (rd (wrap32 (a + Z.of_nat i)))).
Proof.
  intros Ha. revert h a Ha i.
  induction n as [|n IH]; intros h a Ha i Hi; [lia|].
  destruct i as [|i]; simpl.
  - now rewrite app_nil_r, Z.add_0_r, wrap32_small.
  - rewrite IH by (apply wrap32_range || lia).
    rewrite <- app_assoc, wrap32_add_l.
    now replace (a + 1 + Z.of_nat i) with (a + Z.of_nat (S i)) by lia.
Qed.

Lemma target_bytes_app rd h a n m :
  0 <= a < 4294967296 ->
  target_bytes rd h a (n + m) =
  target_bytes rd h a n
  ++ target_bytes rd (h ++ read_calls rd a n) (wrap32 (a + Z.of_nat n)) m.
Proof.
  revert h a. induction n as [|n IH]; intros h a Ha.
  - simpl. now rewrite app_nil_r, Z.add_0_r, wrap32_small.
  - change (S n + m)%nat with (S (n + m)). simpl. f_equal.
    rewrite IH by apply wrap32_range. rewrite <- app_assoc, wrap32_add_l.
    now replace (a + 1 + Z.of_nat n) with (a + Z.of_nat (S n)) by lia.
Qed.

Lemma read_iteration_eq st :
  read_iteration st =
  (isp_reply (isp_log st) (read_call (prog_state st) (prog_address st)),
   set_prog_address (wrap32 (prog_address st + 1))
     (set_isp_log
        (isp_log st ++ [read_call (prog_state st) (prog_address st)]) st)).
Proof.
  unfold read_iteration, read_call, ispReadFlash, ispReadEEPROM, isp.
  case_decide; reflexivity.
Qed.

Lemma read_loop_eq n st :
  0 <= prog_address st < 4294967296 ->
  read_loop n st =
  (target_bytes (read_call (prog_state st)) (isp_log st) (prog_address st) n,
   after_read n st).
Proof.
  revert st. induction n as [|n IH]; intros st Ha.
  - unfold after_read. simpl.
    rewrite Z.add_0_r, app_nil_r, wrap32_small by done.
    now destruct st.
  - cbn [read_loop]. rewrite read_iteration_eq, IH by apply wrap32_range.
    unfold after_read. simpl. rewrite <- app_assoc, wrap32_add_l.
    now replace (prog_address st + 1 + Z.of_nat n)
      with (prog_address st + Z.of_nat (S n)) by lia.
Qed.

Lemma usbFunctionRead_valid len st :
  prog_state st = PROG_STATE_READFLASH
  \/ prog_state st = PROG_STATE_READEEPROM ->
  0 <= prog_address st < 4294967296 ->
  usbFunctionRead len st =
  (len,
   target_bytes (read_call (prog_state st)) (isp_log st) (prog_address st)
     (Z.to_nat len),
   if decide (len < 8)
   then set_prog_state PROG_STATE_IDLE (after_read (Z.to_nat len) st)
   else after_read (Z.to_nat len) st).
Proof.
  intros Hm Ha. unfold usbFunctionRead. case_decide as Hd.
  - destruct Hd, Hm; contradiction.
  - now rewrite read_loop_eq.
Qed.

Lemma after_read_ok n st :
  prog_state (after_read n st) = prog_state st
  /\ 0 <= prog_address (after_read n st) < 4294967296.
Proof. split; [reflexivity|apply wrap32_range]. Qed.

Lemma full_until_last_sum lens :
  full_until_last lens -> 0 <= foldr Z.add 0 lens.
Proof.
  induction lens as [|len [|len' lens] IH]; simpl; [lia|lia|].
  intros [Hlen Hrest]. specialize (IH Hrest). simpl in IH. lia.
Qed.

Lemma read_session_eq lens st :
  prog_state st = PROG_STATE_READFLASH
  \/ prog_state st = PROG_STATE_READEEPROM ->
  0 <= prog_address st < 4294967296 ->
  full_until_last lens ->
  concat (read_session lens st).1 =
    target_bytes (read_call (prog_state st)) (isp_log st) (prog_address st)
      (Z.to_nat (foldr Z.add 0 lens))
  /\ prog_address (read_session lens st).2 =
       wrap32 (prog_address st + foldr Z.add 0 lens).
Proof.
  revert st. induction lens as [|len lens IH]; intros st Hm Ha Hfull.
  - simpl. rewrite Z.add_0_r, wrap32_small by done. done.
  - cbn [read_session]. rewrite usbFunctionRead_valid by done.
    destruct lens as [|len' lens].
    + simpl in *. rewrite app_nil_r, Z.add_0_r. split; [reflexivity|].
      case_decide; simpl; f_equal; lia.
    + destruct Hfull as [Hlen Hrest].
      rewrite decide_False by lia.
      destruct (after_read_ok (Z.to_nat len) st) as [Hm1 Ha1].
      specialize (IH (after_read (Z.to_nat len) st)).
      rewrite Hm1 in IH. specialize (IH Hm Ha1 Hrest).
      destruct (read_session (len' :: lens) (after_read (Z.to_nat len) st))
        as [ds st2] eqn:E.
      destruct IH as [IH1 IH2]. cbn [fst snd] in *. split.
      * pose proof (full_until_last_sum _ Hrest) as Hsum.
        change (foldr Z.add 0 (len :: len' :: lens))
          with (len + foldr Z.add 0 (len' :: lens)).
        rewrite Z2Nat.inj_add by lia. rewrite target_bytes_app by done.
        change (concat (?d :: ds)) with (d ++ concat ds).
        rewrite IH1. unfold after_read. simpl.
        now rewrite Z2Nat.id by lia.
      * rewrite IH2. unfold after_read. cbn [prog_address set_prog_address].
        rewrite wrap32_add_l. change (foldr Z.add 0 (len :: len' :: lens))
          with (len + foldr Z.add 0 (len' :: lens)).
        rewrite Z2Nat.id by lia. f_equal. lia.
Qed.

(** C4: a read chunk of length [len] requested in a read mode returns
    [len]; the bytes it delivers are the bytes of the target (flash or
    EEPROM, as the mode selects) at [address], [address + 1], ...,
    [address + len - 1], read one call after the other in this order;
    [prog_address] is advanced by [len]; the mode becomes idle exactly when
    [len < 8]. Over the chunks of a whole transfer (every chunk but the last
    full), the chunks concatenated are the [N] bytes of the target from the
    start address on, [N] being the sum of the chunk lengths. Addresses are
    [unsigned long] values: sums are taken modulo 2^32. *)
Theorem C4_read_chunks (st : state) :
  prog_state st = PROG_STATE_READFLASH
  \/ prog_state st = PROG_STATE_READEEPROM ->
  session_ok st ->
  let rd := read_call (prog_state st) in
  let a := prog_address st in
  (forall len : Z,
     0 <= len ->
     let r := usbFunctionRead len st in
     r.1.1 = len
     /\ r.1.2 = target_bytes rd (isp_log st) a (Z.to_nat len)
     /\ length r.1.2 = Z.to_nat len
     /\ (forall i : nat,
           (i < Z.to_nat len)%nat ->
           r.1.2 !! i =
           Some (isp_reply (isp_log st ++ read_calls rd a i)
                   (rd (wrap32 (a + Z.of_nat i)))))
     /\ isp_log r.2 = isp_log st ++ read_calls rd a (Z.to_nat len)
     /\ (forall i : nat,
           (i < Z.to_nat len)%nat ->
           read_calls rd a (Z.to_nat len) !! i
           = Some (rd (wrap32 (a + Z.of_nat i))))
     /\ prog_address r.2 = wrap32 (a + len)
     /\ (prog_state r.2 = PROG_STATE_IDLE <-> len < 8)
     /\ (8 <= len -> prog_state r.2 = prog_state st))
  /\ (forall lens : list Z,
        full_until_last lens ->
        concat (read_session lens st).1 =
          target_bytes rd (isp_log st) a (Z.to_nat (foldr Z.add 0 lens))
        /\ prog_address (read_session lens st).2 =
             wrap32 (a + foldr Z.add 0 lens)).
Proof.
  intros Hm (Ha & _) rd a. split; [|intros lens; now apply read_session_eq].
  intros len Hlen r. subst r. rewrite usbFunctionRead_valid by done.
  cbn [fst snd]. split; [reflexivity|]. split; [reflexivity|].
  split; [apply target_bytes_length|].
  split; [intros i Hi; now apply target_bytes_lookup|].
  assert (wrap32 (a + Z.of_nat (Z.to_nat len)) = wrap32 (a + len)) as Hw
    by (f_equal; lia).
  case_decide as Hlt; cbn.
  - repeat split; try done; try lia.
    intros i Hi. now apply read_calls_lookup.
  - repeat split; try done; try lia.
    + intros i Hi. now apply read_calls_lookup.
    + intros Hidle. destruct Hm as [Hm|Hm]; rewrite Hm in Hidle; discriminate.
Qed.

(** C6: with a chunk length of at most 8, usbFunctionRead returns 0xFF
    exactly when the mode is neither read-flash nor read-EEPROM, and in a
    read mode it returns the byte count, which is not 0xFF;
    usbFunctionWrite returns 0xFF exactly when the mode is neither
    write-flash nor write-EEPROM, and in a write mode it returns 0 or 1.
    When they return 0xFF they leave the state as it was. *)
Theorem C6_invalid_state (st : state) :
  (forall len : Z,
     0 <= len <= 8 ->
     ((usbFunctionRead len st).1.1 = 255 <->
      prog_state st <> PROG_STATE_READFLASH
      /\ prog_state st <> PROG_STATE_READEEPROM)
     /\ ((usbFunctionRead len st).1.1 = 255 ->
         usbFunctionRead len st = (255, [], st))
     /\ ((usbFunctionRead len st).1.1 <> 255 ->
         (usbFunctionRead len st).1.1 = len))
  /\ (forall data : list Z,
        ((usbFunctionWrite data st).1 = 255 <->
         prog_state st <> PROG_STATE_WRITEFLASH
         /\ prog_state st <> PROG_STATE_WRITEEEPROM)
        /\ ((usbFunctionWrite data st).1 = 255 ->
            usbFunctionWrite data st = (255, st))
        /\ ((usbFunctionWrite data st).1 <> 255 ->
            (usbFunctionWrite data st).1 = 0
            \/ (usbFunctionWrite data st).1 = 1)).
Proof.
  split.
  - intros len Hlen. unfold usbFunctionRead. case_decide as Hd.
    + cbn. tauto.
    + destruct (read_loop (Z.to_nat len) st) as [bs st1]. cbn.
      repeat split; try tauto; try lia.
  - intros data. unfold usbFunctionWrite. case_decide as Hd.
    + cbn. tauto.
    + pose proof (write_loop_fst_01 data st) as H01.
      repeat split; try tauto; try lia.
Qed.

(** ** Bytes that follow the end of the transfer in the same chunk *)

(** Outside write-flash mode the loop body takes the EEPROM branch; when
    the byte does not bring [prog_nbytes] to zero nothing else is called. *)
Lemma write_byte_eeprom b st :
  prog_state st <> PROG_STATE_WRITEFLASH ->
  wrap16 (prog_nbytes st - 1) <> 0 ->
  isp_log (write_byte b st) =
  isp_log st ++ [IspWriteEEPROM (prog_address st) b].
Proof. intros Hm Hn. write_byte_cases. Qed.

(** C10: a chunk longer than [prog_nbytes] is processed to its end. After
    [j] bytes [prog_nbytes] is the start value minus [j] modulo 2^16 and
    [prog_address] the start value plus [j] modulo 2^32, for every [j] up to
    the chunk length. When [prog_nbytes] was [n > 0]: the call returns 1,
    the counter is 0 after byte [n] and 65535 after the next byte, and every
    byte after the [n]-th is met in idle mode and written by one call of
    ispWriteEEPROM at its address, whichever write mode the call started
    in. The second part needs [n > 0]: with [prog_nbytes = 0] at the start
    the counter wraps on the first byte without having been tested at 0,
    and the mode stays what it was. *)
Theorem C10_chunk_past_completion (data : list Z) (st : state) :
  prog_state st = PROG_STATE_WRITEFLASH
  \/ prog_state st = PROG_STATE_WRITEEEPROM ->
  session_ok st ->
  prog_nbytes st < Z.of_nat (length data) ->
  (length data <= 255)%nat ->
  let n := Z.to_nat (prog_nbytes st) in
  (usbFunctionWrite data st).2 = write_bytes data st
  /\ (forall j : nat,
        (j <= length data)%nat ->
        prog_nbytes (write_bytes (take j data) st)
        = wrap16 (prog_nbytes st - Z.of_nat j)
        /\ prog_address (write_bytes (take j data) st)
           = wrap32 (prog_address st + Z.of_nat j))
  /\ (0 < prog_nbytes st ->
      (usbFunctionWrite data st).1 = 1
      /\ prog_nbytes (write_bytes (take n data) st) = 0
      /\ prog_nbytes (write_bytes (take (S n) data) st) = 65535
      /\ (forall (j : nat) (b : Z),
            (n <= j)%nat ->
            data !! j = Some b ->
            prog_state (write_bytes (take j data) st) = PROG_STATE_IDLE
            /\ isp_log (write_bytes (take (S j) data) st)
               = isp_log (write_bytes (take j data) st)
                 ++ [IspWriteEEPROM
                       (wrap32 (prog_address st + Z.of_nat j)) b])).
Proof.
  intros Hm (Ha & Hn & _) Hlen H255 n.
  assert (forall j : nat,
            (j <= length data)%nat ->
            prog_nbytes (write_bytes (take j data) st)
            = wrap16 (prog_nbytes st - Z.of_nat j)
            /\ prog_address (write_bytes (take j data) st)
               = wrap32 (prog_address st + Z.of_nat j)) as Hfields.
  { intros j Hj.
    rewrite write_bytes_nbytes, write_bytes_address by done.
    rewrite length_take, Nat.min_l by done. done. }
  split; [now apply usbFunctionWrite_snd|]. split; [exact Hfields|].
  intros Hpos.
  assert (prog_nbytes (write_bytes (take n data) st) = 0) as Hzero.
  { destruct (Hfields n ltac:(lia)) as [-> _].
    subst n. rewrite Z2Nat.id by lia. now rewrite Z.sub_diag. }
  split; [|split; [exact Hzero|split]].
  - rewrite usbFunctionWrite_valid by done.
    apply (write_loop_fst data 0 st). exists (pred n).
    replace (S (pred n)) with n by lia. split; [lia|exact Hzero].
  - destruct (Hfields (S n) ltac:(lia)) as [-> _].
    replace (prog_nbytes st - Z.of_nat (S n)) with (-1) by lia. reflexivity.
  - intros j b Hj Hb. pose proof (lookup_lt_Some _ _ _ Hb) as Hjlen.
    assert (prog_state (write_bytes (take j data) st) = PROG_STATE_IDLE)
      as Hidle.
    { apply write_bytes_state_after; [done| |];
        rewrite length_take, Nat.min_l by lia; lia. }
    split; [exact Hidle|].
    rewrite (take_S_r _ _ _ Hb), write_bytes_snoc.
    destruct (Hfields j ltac:(lia)) as [Hnj Haj].
    rewrite write_byte_eeprom, Haj; [reflexivity|congruence|].
    rewrite Hnj, wrap16_sub_l, wrap16_neg by lia. lia.
Qed.

(** ** usbFunctionSetup *)

Lemma descriptor_byte data i :
  descriptor_ok data -> (i < 8)%nat -> is_uchar (data !!! i).
Proof.
  intros [Hlen Hall] Hi. apply Forall_lookup_total_1; [exact Hall|lia].
Qed.

(** Pairwise inequalities out of [funcs_distinct]. *)
Ltac split_notin Hn :=
  repeat (let Hne := fresh "Hne" in
          apply not_elem_of_cons in Hn as [Hne Hn]);
  clear Hn.

Ltac split_distinct Hd :=
  unfold funcs_distinct, known_funcs in Hd;
  repeat (let Hn := fresh "Hn" in
          apply NoDup_cons in Hd as [Hn Hd]; split_notin Hn);
  clear Hd.

(** Walk down the [if] chain on [data[1]], closing the branches that the
    hypotheses on the opcode exclude. *)
Ltac setup_cases :=
  unfold usbFunctionSetup, setup_chain;
  repeat match goal with
    | |- context [decide (?d !!! 1%nat = ?f)] =>
        destruct (decide (d !!! 1%nat = f)); try congruence
    end;
  state_simpl.

(** C7: on a write-flash command the page size becomes
    [data[4] + ((data[5] & 0xF0) << 4)] and the block flags become
    [data[5] & 0x0F]. *)
Theorem C7_pagesize_decoding (data : list Z) (st : state) :
  funcs_distinct ->
  descriptor_ok data ->
  data.[1] = USBASP_FUNC_WRITEFLASH ->
  prog_pagesize (usbFunctionSetup data st).2
    = data.[4] + Z.shiftl (Z.land data.[5] 240) 4
  /\ prog_blockflags (usbFunctionSetup data st).2 = Z.land data.[5] 15.
Proof.
  intros Hd Hok Hop.
  assert (wrap16 (data.[4] + wrap16 (Z.shiftl (Z.land data.[5] 240) 4))
          = data.[4] + Z.shiftl (Z.land data.[5] 240) 4) as Hw.
  { pose proof (descriptor_byte data 4 Hok ltac:(lia)) as Hbyte4.
    pose proof (land_mask_range data.[5] 240 ltac:(lia)) as Hmask5.
    unfold is_uchar in Hbyte4. rewrite Z.shiftl_mul_pow2 by lia.
    change (2 ^ 4) with 16. rewrite (wrap16_small (_ * 16)) by lia.
    apply wrap16_small. lia. }
  split_distinct Hd. setup_cases.
  split; case_decide; state_simpl; solve [exact Hw | reflexivity].
Qed.

(** C9: when [data[1]] is none of the opcodes of the [if] chain,
    usbFunctionSetup returns 0 and leaves every session variable as it was;
    it calls nothing and only points [usbMsgPtr] at the reply buffer. *)
Theorem C9_unknown_opcode (data : list Z) (st : state) :
  Forall (fun f => data.[1] <> f) known_funcs ->
  (usbFunctionSetup data st).1 = 0
  /\ prog_state (usbFunctionSetup data st).2 = prog_state st
  /\ prog_sck (usbFunctionSetup data st).2 = prog_sck st
  /\ prog_address_newmode (usbFunctionSetup data st).2
     = prog_address_newmode st
  /\ prog_address (usbFunctionSetup data st).2 = prog_address st
  /\ prog_nbytes (usbFunctionSetup data st).2 = prog_nbytes st
  /\ prog_pagesize (usbFunctionSetup data st).2 = prog_pagesize st
  /\ prog_blockflags (usbFunctionSetup data st).2 = prog_blockflags st
  /\ prog_pagecounter (usbFunctionSetup data st).2 = prog_pagecounter st
  /\ replyBuffer (usbFunctionSetup data st).2 = replyBuffer st
  /\ isp_log (usbFunctionSetup data st).2 = isp_log st.
Proof.
  unfold known_funcs. rewrite !Forall_cons. intros Hne. destruct_and!.
  setup_cases. repeat split.
Qed.

(** The four transfer commands leave the address alone in the new
    addressing mode. *)
Lemma setup_transfer_newmode data st :
  funcs_distinct ->
  data.[1] ∈ transfer_funcs ->
  prog_address_newmode st <> 0 ->
  prog_address (usbFunctionSetup data st).2 = prog_address st
  /\ prog_address_newmode (usbFunctionSetup data st).2
     = prog_address_newmode st.
Proof.
  intros Hd Hop Hnew. split_distinct Hd.
  unfold transfer_funcs in Hop. rewrite !elem_of_cons in Hop.
  destruct Hop as [Hop|[Hop|[Hop|[Hop|Hop]]]];
    [| | | |now apply elem_of_nil in Hop];
    setup_cases;
    rewrite (decide_False (P := prog_address_newmode st = 0)) by done;
    split; try case_decide; reflexivity.
Qed.

Lemma setup_setlongaddress data st :
  funcs_distinct ->
  data.[1] = USBASP_FUNC_SETLONGADDRESS ->
  prog_address (usbFunctionSetup data st).2 = long_at2 data
  /\ prog_address_newmode (usbFunctionSetup data st).2 = 1.
Proof.
  intros Hd Hop. split_distinct Hd. setup_cases. repeat split.
Qed.

(** C8: after a set-long-address command, a transfer command (write-flash
    in particular) leaves [prog_address] at the 32-bit value of the first
    command, whatever inline address it carries: 0x01020304 for the bytes
    04 03 02 01. In general, while [prog_address_newmode] is set, a
    transfer command does not touch [prog_address]. *)
Theorem C8_long_address_kept (d1 d2 : list Z) (st : state) :
  funcs_distinct ->
  d1.[1] = USBASP_FUNC_SETLONGADDRESS ->
  d2.[1] ∈ transfer_funcs ->
  let st1 := (usbFunctionSetup d1 st).2 in
  let st2 := (usbFunctionSetup d2 st1).2 in
  prog_address_newmode st1 = 1
  /\ prog_address st2 = long_at2 d1
  /\ prog_address_newmode st2 = 1
  /\ (d1.[2] = 4 -> d1.[3] = 3 -> d1.[4] = 2 -> d1.[5] = 1 ->
      prog_address st2 = 16909060)
  /\ (forall s : state,
        prog_address_newmode s <> 0 ->
        prog_address (usbFunctionSetup d2 s).2 = prog_address s).
Proof.
  intros Hd Hop1 Hop2 st1 st2.
  destruct (setup_setlongaddress d1 st Hd Hop1) as [Ha1 Hn1].
  fold st1 in Ha1, Hn1.
  destruct (setup_transfer_newmode d2 st1 Hd Hop2) as [Ha2 Hn2];
    [rewrite Hn1; discriminate|].
  fold st2 in Ha2, Hn2.
  split; [exact Hn1|]. split; [congruence|]. split; [congruence|]. split.
  - intros E2 E3 E4 E5. rewrite Ha2, Ha1. unfold long_at2.
    rewrite E2, E3, E4, E5. reflexivity.
  - intros s Hs. now apply setup_transfer_newmode.
Qed.

(** ** Paged flash writes *)

Lemma paged_calls_app P a j l1 l2 :
  paged_calls P a j (l1 ++ l2) =
  paged_calls P a j l1 ++ paged_calls P a (j + Z.of_nat (length l1)) l2.
Proof.
  revert j. induction l1 as [|b l1 IH]; intros j.
  - simpl. now rewrite Z.add_0_r.
  - cbn [paged_calls app length]. rewrite IH, <- !app_assoc.
    now replace (j + 1 + Z.of_nat (length l1))
      with (j + Z.of_nat (S (length l1))) by lia.
Qed.

Lemma count_flush_cons c l :
  count_flush (c :: l) = ((if is_flush c then 1 else 0) + count_flush l)%nat.
Proof.
  unfold count_flush. destruct c; reflexivity.
Qed.

(** The flushes among the calls of [bytes] are the page boundaries crossed. *)
Lemma count_flush_paged P a j bytes :
  0 < P -> 0 <= j ->
  Z.of_nat (count_flush (paged_calls P a j bytes))
  = (j + Z.of_nat (length bytes)) / P - j / P.
Proof.
  intros HP. revert j. induction bytes as [|b bytes IH]; intros j Hj.
  - simpl. rewrite Z.add_0_r. unfold count_flush. simpl. lia.
  - cbn [paged_calls length]. rewrite count_flush_cons, count_flush_app.
    rewrite !Nat2Z.inj_add, IH by lia.
    replace (j + 1 + Z.of_nat (length bytes))
      with (j + Z.of_nat (S (length bytes))) by lia.
    destruct (succ_div_mod P j HP Hj) as [(Hz & _ & Hd)|(Hnz & _ & Hd)];
      rewrite Hd.
    + rewrite decide_True by done.
      change (count_flush [IspFlushPage (wrap32 (a + j)) b]) with 1%nat.
      cbn [is_flush]. lia.
    + rewrite decide_False by done. change (count_flush []) with 0%nat.
      cbn [is_flush]. lia.
Qed.

(** What the loop body calls, and what it leaves in [prog_pagecounter], on
    one byte of a paged flash write. *)
Lemma write_byte_paged b st :
  prog_state st = PROG_STATE_WRITEFLASH ->
  prog_pagesize st <> 0 ->
  let pc := if decide (wrap8 (prog_pagecounter st - 1) = 0)
            then wrap8 (prog_pagesize st)
            else wrap8 (prog_pagecounter st - 1) in
  prog_pagecounter (write_byte b st) = pc
  /\ isp_log (write_byte b st) =
     isp_log st
     ++ [IspWriteFlash (prog_address st) b 0]
     ++ (if decide (wrap8 (prog_pagecounter st - 1) = 0)
         then [IspFlushPage (prog_address st) b] else [])
     ++ (if decide (wrap16 (prog_nbytes st - 1) = 0
                    /\ Z.land (prog_blockflags st) PROG_BLOCKFLAG_LAST <> 0
                    /\ pc <> prog_pagesize st)
         then [IspFlushPage (prog_address st) b] else []).
Proof.
  intros Hm HP.
  unfold write_byte, write_iteration, ispWriteFlash, ispFlushPage,
    ispWriteEEPROM, isp.
  simpl. repeat (case_decide; simpl); rewrite <- ?app_assoc; simpl;
    solve [split; reflexivity | tauto].
Qed.

(** A paged transfer that starts on a page boundary, after any number of
    bytes up to [prog_nbytes]: the counter is the room left in the page, and
    the calls are those of [paged_calls], followed by the final flush when
    the transfer is complete, is the last block, and stops inside a page. *)
Lemma paged_prefix l st :
  prog_state st = PROG_STATE_WRITEFLASH ->
  0 < prog_pagesize st < 256 ->
  prog_pagecounter st = prog_pagesize st ->
  0 <= prog_nbytes st < 65536 ->
  0 <= prog_address st < 4294967296 ->
  Z.of_nat (length l) <= prog_nbytes st ->
  prog_pagecounter (write_bytes l st)
  = prog_pagesize st - Z.of_nat (length l) mod prog_pagesize st
  /\ isp_log (write_bytes l st) =
     isp_log st
     ++ paged_calls (prog_pagesize st) (prog_address st) 0 l
     ++ (if decide (Z.of_nat (length l) = prog_nbytes st
                    /\ Z.land (prog_blockflags st) PROG_BLOCKFLAG_LAST <> 0
                    /\ Z.of_nat (length l) mod prog_pagesize st <> 0)
         then final_flush (prog_address st) l else []).
Proof.
  intros Hm HP Hpc Hn Ha.
  induction l as [|b l IH] using rev_ind; intros Hlen.
  - cbn [length]. rewrite Z.mod_0_l by lia.
    rewrite decide_False by tauto. simpl. rewrite app_nil_r. split; [lia|done].
  - rewrite length_app in Hlen |- *. cbn [length] in Hlen |- *.
    replace (Z.of_nat (length l + 1)) with (Z.of_nat (length l) + 1)
      in Hlen |- * by lia.
    destruct IH as [IHpc IHlog]; [lia|].
    rewrite decide_False, app_nil_r in IHlog by lia.
    pose proof (Z.mod_pos_bound (Z.of_nat (length l)) (prog_pagesize st)
                  ltac:(lia)) as Hmod.
    pose proof (Z.mod_pos_bound (Z.of_nat (length l) + 1) (prog_pagesize st)
                  ltac:(lia)) as Hmod'.
    assert (prog_state (write_bytes l st) = PROG_STATE_WRITEFLASH) as Hms
      by (rewrite write_bytes_state_before; [done|done|lia]).
    assert (prog_pagesize (write_bytes l st) <> 0) as HPs
      by (rewrite write_bytes_pagesize; lia).
    destruct (write_byte_paged b (write_bytes l st) Hms HPs) as [Hpc' Hlog'].
    rewrite write_bytes_snoc, Hpc', Hlog'. clear Hpc' Hlog'.
    rewrite write_bytes_pagesize, write_bytes_blockflags, IHpc, IHlog.
    rewrite write_bytes_nbytes, write_bytes_address by done.
    rewrite wrap16_sub_l.
    rewrite (wrap8_small (_ - _ - 1)), (wrap8_small (prog_pagesize st)),
      (wrap16_small (_ - _ - 1)) by lia.
    rewrite paged_calls_app. cbn [paged_calls]. rewrite Z.add_0_l, app_nil_r.
    unfold final_flush. rewrite last_snoc, length_app. cbn [length].
    replace (prog_address st + Z.of_nat (length l + 1) - 1)
      with (prog_address st + Z.of_nat (length l)) by lia.
    destruct (succ_div_mod (prog_pagesize st) (Z.of_nat (length l))
                ltac:(lia) ltac:(lia))
      as [(Hz & Hlast & _)|(Hnz & Hsucc & _)].
    + destruct (decide (prog_pagesize st
                        - Z.of_nat (length l) mod prog_pagesize st - 1 = 0))
        as [_|Hne]; [|lia].
      rewrite (decide_True (P := (_ + 1) mod _ = 0)) by exact Hz.
      rewrite !(decide_False (P := _ /\ _ /\ _)) by lia.
      rewrite <- !app_assoc. split; [lia|reflexivity].
    + destruct (decide (prog_pagesize st
                        - Z.of_nat (length l) mod prog_pagesize st - 1 = 0))
        as [He|_]; [lia|].
      rewrite (decide_False (P := (_ + 1) mod _ = 0)) by exact Hnz.
      split; [lia|]. rewrite <- !app_assoc. do 3 f_equal.
      apply decide_ext. intuition lia.
Qed.

(** The number of flushes after the first bytes of such a transfer: one per
    full page, and the final one. *)
Lemma paged_flushes_after l st :
  prog_state st = PROG_STATE_WRITEFLASH ->
  0 < prog_pagesize st < 256 ->
  prog_pagecounter st = prog_pagesize st ->
  0 <= prog_nbytes st < 65536 ->
  0 <= prog_address st < 4294967296 ->
  Z.of_nat (length l) <= prog_nbytes st ->
  Z.of_nat (count_flush (calls_since st (write_bytes l st)))
  = Z.of_nat (length l) / prog_pagesize st
    + (if decide (Z.of_nat (length l) = prog_nbytes st
                  /\ Z.land (prog_blockflags st) PROG_BLOCKFLAG_LAST <> 0
                  /\ Z.of_nat (length l) mod prog_pagesize st <> 0)
       then 1 else 0).
Proof.
  intros Hm HP Hpc Hn Ha Hlen.
  destruct (paged_prefix l st Hm HP Hpc Hn Ha Hlen) as [_ Hlog].
  rewrite (calls_since_app _ _ _ Hlog), count_flush_app, Nat2Z.inj_add.
  rewrite count_flush_paged, Z.add_0_l, Z.div_0_l by lia.
  rewrite Z.sub_0_r. f_equal. case_decide as Hc; [|reflexivity].
  unfold final_flush. destruct (last l) as [b|] eqn:Hb; [reflexivity|].
  apply last_None in Hb. subst l. destruct Hc as (_ & _ & Hc).
  simpl in Hc. rewrite Z.mod_0_l in Hc by lia. contradiction.
Qed.

(** ** Chunks of a write transfer *)

Lemma write_session_empty chunks st :
  concat chunks = [] -> (write_session chunks st).2 = st.
Proof.
  induction chunks as [|c cs IH]; [reflexivity|].
  simpl. intros Hc. apply app_eq_nil in Hc as [-> Hcs]. specialize (IH Hcs).
  destruct (write_session cs st) as [rs st2] eqn:E. simpl in IH. subst st2.
  unfold usbFunctionWrite. case_decide; simpl; now rewrite E.
Qed.

(** As long as the chunks do not hold more bytes than [prog_nbytes], calling
    usbFunctionWrite chunk after chunk is running the loop body over the
    bytes of all the chunks. *)
Lemma write_session_flat chunks st :
  prog_state st = PROG_STATE_WRITEFLASH
  \/ prog_state st = PROG_STATE_WRITEEEPROM ->
  0 <= prog_nbytes st < 65536 ->
  Z.of_nat (length (concat chunks)) <= prog_nbytes st ->
  (write_session chunks st).2 = write_bytes (concat chunks) st.
Proof.
  revert st. induction chunks as [|c cs IH]; intros st Hm Hn Hlen;
    [reflexivity|].
  cbn [concat] in Hlen |- *. rewrite length_app in Hlen.
  rewrite write_bytes_app. cbn [write_session].
  pose proof (usbFunctionWrite_snd c st Hm) as Hc.
  destruct (usbFunctionWrite c st) as [r st1]. cbn [snd] in Hc. subst st1.
  destruct (decide (Z.of_nat (length c) < prog_nbytes st)) as [Hlt|Hge].
  - specialize (IH (write_bytes c st)).
    rewrite write_bytes_state_before, write_bytes_nbytes in IH by done.
    rewrite wrap16_small in IH by lia.
    destruct (write_session cs (write_bytes c st)) as [rs st2].
    apply IH; [done|lia|lia].
  - assert (concat cs = []) as Hnil by (apply length_zero_iff_nil; lia).
    pose proof (write_session_empty cs (write_bytes c st) Hnil) as He.
    destruct (write_session cs (write_bytes c st)) as [rs st2].
    rewrite Hnil. exact He.
Qed.

(** The run of a whole paged transfer of exactly [prog_nbytes] bytes, in
    chunks, from a page boundary. *)
Lemma paged_session chunks st :
  prog_state st = PROG_STATE_WRITEFLASH ->
  session_ok st ->
  0 < prog_pagesize st < 256 ->
  prog_pagecounter st = prog_pagesize st ->
  0 < prog_nbytes st ->
  Z.of_nat (length (concat chunks)) = prog_nbytes st ->
  let st' := (write_session chunks st).2 in
  st' = write_bytes (concat chunks) st
  /\ prog_state st' = PROG_STATE_IDLE
  /\ prog_nbytes st' = 0
  /\ prog_pagesize st' = prog_pagesize st
  /\ prog_pagecounter st'
     = prog_pagesize st - prog_nbytes st mod prog_pagesize st
  /\ calls_since st st' =
     paged_calls (prog_pagesize st) (prog_address st) 0 (concat chunks)
     ++ (if decide (Z.land (prog_blockflags st) PROG_BLOCKFLAG_LAST <> 0
                    /\ prog_nbytes st mod prog_pagesize st <> 0)
         then final_flush (prog_address st) (concat chunks) else []).
Proof.
  intros Hm (Ha & Hn & _) HP Hpc Hpos Hlen st'.
  assert (st' = write_bytes (concat chunks) st) as Hst'
    by (apply write_session_flat; [now left|done|lia]).
  destruct (paged_prefix (concat chunks) st Hm HP Hpc Hn Ha ltac:(lia))
    as [Hpc' Hlog'].
  rewrite <- Hst', Hlen in Hpc', Hlog'.
  split; [exact Hst'|]. split; [|split; [|split; [|split]]].
  - rewrite Hst'. apply write_bytes_state_after; lia.
  - rewrite Hst', write_bytes_nbytes, <- Hlen, Z.sub_diag by done. reflexivity.
  - rewrite Hst'. apply write_bytes_pagesize.
  - exact Hpc'.
  - apply calls_since_app. rewrite Hlog'. do 2 f_equal.
    apply decide_ext. tauto.
Qed.

(** C1 (amended): a write-flash session that starts on a page boundary
    ([prog_pagecounter = prog_pagesize = P], as the write-flash command
    leaves it when the first-block flag is set), with [0 < P < 256], in
    which exactly [K = prog_nbytes] bytes are written, [K] a positive
    multiple of [P]: ispFlushPage is called exactly [K / P] times. After
    the first [j] bytes of the session it has been called [j / P] times,
    for every [j] up to [K]: each call comes when [P] more bytes have been
    written. The calls of the session are those of [paged_calls], where a
    flush follows the byte number [j + 1] exactly when [P] divides
    [j + 1]. *)
Theorem C1_paged_flush_count (chunks : list (list Z)) (st : state) :
  prog_state st = PROG_STATE_WRITEFLASH ->
  session_ok st ->
  0 < prog_pagesize st < 256 ->
  prog_pagecounter st = prog_pagesize st ->
  0 < prog_nbytes st ->
  prog_nbytes st mod prog_pagesize st = 0 ->
  Z.of_nat (length (concat chunks)) = prog_nbytes st ->
  let st' := (write_session chunks st).2 in
  Z.of_nat (count_flush (calls_since st st'))
  = prog_nbytes st / prog_pagesize st
  /\ calls_since st st'
     = paged_calls (prog_pagesize st) (prog_address st) 0 (concat chunks)
  /\ st' = write_bytes (concat chunks) st
  /\ (forall j : nat,
        (j <= length (concat chunks))%nat ->
        Z.of_nat
          (count_flush
             (calls_since st (write_bytes (take j (concat chunks)) st)))
        = Z.of_nat j / prog_pagesize st)
  /\ prog_state st' = PROG_STATE_IDLE
  /\ prog_pagecounter st' = prog_pagesize st.
Proof.
  intros Hm Hok HP Hpc Hpos Hmul Hlen st'.
  destruct (paged_session chunks st Hm Hok HP Hpc Hpos Hlen)
    as (Hst' & Hidle & _ & _ & Hpc' & Hcalls).
  fold st' in Hst', Hidle, Hpc', Hcalls.
  rewrite decide_False, app_nil_r in Hcalls by tauto.
  destruct Hok as (Ha & Hn & _).
  split; [|split; [exact Hcalls|split; [exact Hst'|split; [|split]]]].
  - rewrite Hcalls, count_flush_paged, Hlen by lia.
    rewrite Z.add_0_l, Z.div_0_l by lia. lia.
  - intros j Hj.
    rewrite paged_flushes_after by
      (done || rewrite length_take, Nat.min_l by done; lia).
    rewrite length_take, Nat.min_l by done.
    rewrite decide_False; [lia|]. intros (Hjn & _ & Hjm).
    rewrite Hjn in Hjm. contradiction.
  - exact Hidle.
  - rewrite Hpc', Hmul. lia.
Qed.

(** C3 (amended): a write-flash session that starts on a page boundary, with
    [0 < P < 256], the last-block flag set, and exactly [K = prog_nbytes]
    bytes written, [K] not a multiple of [P]: ispFlushPage is called
    exactly [ceil (K / P)] times. [K / P] of the calls follow full pages
    (after [j < K] bytes there have been [j / P] calls); the last one
    follows the write of the last byte, which does not fill a page: at that
    moment [prog_nbytes] is 0 and [prog_pagecounter] is neither 0 nor
    [prog_pagesize]. *)
Theorem C3_trailing_page_flush (chunks : list (list Z)) (st : state) :
  prog_state st = PROG_STATE_WRITEFLASH ->
  session_ok st ->
  0 < prog_pagesize st < 256 ->
  prog_pagecounter st = prog_pagesize st ->
  Z.land (prog_blockflags st) PROG_BLOCKFLAG_LAST <> 0 ->
  prog_nbytes st mod prog_pagesize st <> 0 ->
  Z.of_nat (length (concat chunks)) = prog_nbytes st ->
  let st' := (write_session chunks st).2 in
  let P := prog_pagesize st in
  let K := prog_nbytes st in
  Z.of_nat (count_flush (calls_since st st')) = (K + P - 1) / P
  /\ calls_since st st'
     = paged_calls P (prog_address st) 0 (concat chunks)
       ++ final_flush (prog_address st) (concat chunks)
  /\ Z.of_nat (count_flush (paged_calls P (prog_address st) 0 (concat chunks)))
     = K / P
  /\ (exists b : Z,
        last (concat chunks) = Some b
        /\ final_flush (prog_address st) (concat chunks)
           = [IspFlushPage (wrap32 (prog_address st + K - 1)) b])
  /\ st' = write_bytes (concat chunks) st
  /\ (forall j : nat,
        (j < length (concat chunks))%nat ->
        Z.of_nat
          (count_flush
             (calls_since st (write_bytes (take j (concat chunks)) st)))
        = Z.of_nat j / P)
  /\ prog_nbytes st' = 0
  /\ prog_state st' = PROG_STATE_IDLE
  /\ prog_pagecounter st' = P - K mod P
  /\ prog_pagecounter st' <> 0
  /\ prog_pagecounter st' <> prog_pagesize st'.
Proof.
  intros Hm Hok HP Hpc Hlast Hrem Hlen st' P K.
  assert (0 < K) as Hpos.
  { destruct Hok as (_ & Hn & _). subst K.
    destruct (decide (prog_nbytes st = 0)) as [Hz|Hnz]; [|lia].
    rewrite Hz, Z.mod_0_l in Hrem by lia. contradiction. }
  destruct (paged_session chunks st Hm Hok HP Hpc Hpos Hlen)
    as (Hst' & Hidle & Hzero & HP' & Hpc' & Hcalls).
  fold st' P K in Hst', Hidle, Hzero, HP', Hpc', Hcalls.
  rewrite decide_True in Hcalls by tauto.
  assert (Z.of_nat (count_flush
            (paged_calls P (prog_address st) 0 (concat chunks))) = K / P)
    as Hfull.
  { rewrite count_flush_paged, Hlen by lia.
    rewrite Z.add_0_l, Z.div_0_l by lia. subst K. lia. }
  assert (exists b : Z,
            last (concat chunks) = Some b
            /\ final_flush (prog_address st) (concat chunks)
               = [IspFlushPage (wrap32 (prog_address st + K - 1)) b])
    as (b & Hb & Hfinal).
  { destruct (last (concat chunks)) as [b|] eqn:Hb.
    - exists b. split; [reflexivity|]. unfold final_flush.
      now rewrite Hb, Hlen.
    - apply last_None in Hb. rewrite Hb in Hlen. simpl in Hlen. lia. }
  pose proof (Z.mod_pos_bound K P ltac:(lia)) as Hmod.
  split; [|split; [exact Hcalls|split; [exact Hfull|split; [eauto|]]]].
  - rewrite Hcalls, count_flush_app, Nat2Z.inj_add, Hfull, Hfinal.
    rewrite ceil_div by (done || lia). reflexivity.
  - split; [exact Hst'|]. split.
    { intros j Hj. destruct Hok as (Ha & Hn & _).
      rewrite paged_flushes_after by
        (done || rewrite length_take, Nat.min_l by lia; lia).
      rewrite length_take, Nat.min_l by lia.
      rewrite decide_False; [subst P; lia|]. lia. }
    split; [exact Hzero|]. split; [exact Hidle|]. split; [exact Hpc'|].
    rewrite Hpc', HP'. subst P K. split; lia.
Qed.

(** ** The counters stay within their C types *)

Lemma init_state_ok : session_ok init_state.
Proof. unfold session_ok, is_uchar. simpl. lia. Qed.

Lemma write_byte_ok b st : session_ok st -> session_ok (write_byte b st).
Proof.
  intros (Ha & Hn & Hp & Hb & Hc). unfold session_ok.
  rewrite write_byte_address, write_byte_nbytes, write_byte_pagesize,
    write_byte_blockflags.
  split; [apply wrap32_range|]. split; [apply wrap16_range|].
  split; [exact Hp|]. split; [exact Hb|].
  clear Ha Hn Hp Hb. write_byte_cases; solve [exact Hc | apply wrap8_range].
Qed.

Lemma usbFunctionWrite_ok data st :
  session_ok st -> session_ok (usbFunctionWrite data st).2.
Proof.
  intros Hok. unfold usbFunctionWrite. case_decide; [exact Hok|].
  rewrite write_loop_snd. clear - Hok. revert st Hok.
  induction data as [|b data IH]; intros st Hok; [exact Hok|].
  apply IH, write_byte_ok, Hok.
Qed.

Lemma usbFunctionRead_ok len st :
  session_ok st -> session_ok (usbFunctionRead len st).2.
Proof.
  intros Hok. unfold usbFunctionRead. case_decide; [exact Hok|].
  destruct Hok as (Ha & Hrest). rewrite read_loop_eq by done.
  case_decide; (split; [apply wrap32_range|exact Hrest]).
Qed.

Lemma usbFunctionSetup_ok data st :
  session_ok st -> session_ok (usbFunctionSetup data st).2.
Proof.
  intros (Ha & Hn & Hp & Hb & Hc). unfold is_uchar in Hb, Hc.
  pose proof (land_mask_range data.[5] 15 ltac:(lia)) as Hflags.
  unfold usbFunctionSetup, setup_chain.
  repeat match goal with
    | |- context [decide (?d !!! 1%nat = ?f)] =>
        destruct (decide (d !!! 1%nat = f)); cbv beta iota
    end;
    unfold session_ok, is_uchar, long_at2; state_simpl;
    repeat (case_decide; state_simpl); repeat split;
    solve [ lia | apply wrap8_range | apply wrap16_range
          | apply wrap32_range ].
Qed.

(** ** The page counter while it fits its byte *)

(** With a page size below 256, the write-flash command of a first block
    sets [prog_pagecounter] to the page size. *)
Lemma setup_first_block data st :
  funcs_distinct ->
  data.[1] = USBASP_FUNC_WRITEFLASH ->
  Z.land (Z.land data.[5] 15) PROG_BLOCKFLAG_FIRST <> 0 ->
  prog_pagecounter (usbFunctionSetup data st).2
  = wrap8 (prog_pagesize (usbFunctionSetup data st).2).
Proof.
  intros Hd Hop Hfirst. split_distinct Hd. setup_cases.
  rewrite (decide_True (P := Z.land _ _ <> 0)) by exact Hfirst.
  reflexivity.
Qed.

(** The loop body keeps [0 < prog_pagecounter <= prog_pagesize] when the
    page size is below 256. *)
Lemma write_byte_pagecounter_inv b st :
  0 < prog_pagesize st < 256 ->
  0 < prog_pagecounter st <= prog_pagesize st ->
  0 < prog_pagecounter (write_byte b st) <= prog_pagesize (write_byte b st).
Proof.
  intros HP Hpc. rewrite write_byte_pagesize.
  destruct (decide (prog_state st = PROG_STATE_WRITEFLASH)) as [Hm|Hm].
  - destruct (write_byte_paged b st Hm ltac:(lia)) as [-> _].
    rewrite (wrap8_small (_ - 1)), (wrap8_small (prog_pagesize st)) by lia.
    case_decide; lia.
  - assert (prog_pagecounter (write_byte b st) = prog_pagecounter st) as ->
      by (clear HP Hpc; write_byte_cases).
    exact Hpc.
Qed.

(** * More of usbFunctionSetup *)

(** Walk down the [if] chain on [data[1]], one branch per goal. *)
Ltac setup_walk :=
  unfold usbFunctionSetup, setup_chain;
  repeat match goal with
    | |- context [decide (?d !!! 1%nat = ?f)] =>
        destruct (decide (d !!! 1%nat = f)); cbv beta iota; try congruence
    end;
  state_simpl.

Ltac split_forall Hf :=
  repeat (let Hne := fresh "Hne" in
          apply Forall_cons in Hf as [Hne Hf]);
  clear Hf.

(** ** The 16-bit fields of a descriptor *)

Lemma word_at_value data hi lo :
  is_uchar (data !!! hi) -> is_uchar (data !!! lo) ->
  wrap32 (word_at data hi lo) = legacy_address (data !!! hi) (data !!! lo)
  /\ wrap16 (word_at data hi lo) = data !!! hi * 256 + data !!! lo.
Proof.
  unfold is_uchar, word_at, legacy_address. intros Hhi Hlo.
  rewrite wrap16_int16, lor_shiftl8 by exact Hlo.
  split; [|apply wrap16_small; lia].
  rewrite int16_value by lia.
  destruct (decide (data !!! hi < 128)) as [Hpos|Hneg].
  - rewrite decide_True by lia. apply wrap32_small. lia.
  - rewrite decide_False by lia. unfold wrap32. symmetry.
    apply Z.mod_unique with (q := -1); lia.
Qed.

(** The four transfer commands, in the old addressing mode: the return
    value is 0xFF, nothing is called, [prog_nbytes] is the 16-bit count
    [data[6] + 256 * data[7]], and [prog_address] is the 16-bit inline
    address [data[2] + 256 * data[3]] when it is below 0x8000 and that
    address plus 0xFFFF0000 otherwise: the [int] value
    [(data[3] << 8) | data[2]] is negative then, and its conversion to
    [unsigned long] fills the upper half with ones. *)
Theorem transfer_command_decoding (data : list Z) (st : state) :
  funcs_distinct ->
  descriptor_ok data ->
  data.[1] ∈ transfer_funcs ->
  prog_address_newmode st = 0 ->
  (usbFunctionSetup data st).1 = 255
  /\ isp_log (usbFunctionSetup data st).2 = isp_log st
  /\ prog_nbytes (usbFunctionSetup data st).2 = data.[7] * 256 + data.[6]
  /\ prog_address (usbFunctionSetup data st).2
     = legacy_address data.[3] data.[2]
  /\ (data.[3] < 128 ->
      prog_address (usbFunctionSetup data st).2 = data.[3] * 256 + data.[2])
  /\ (128 <= data.[3] ->
      prog_address (usbFunctionSetup data st).2
      = 4294901760 + data.[3] * 256 + data.[2]).
Proof.
  intros Hd Hok Hop Hold.
  destruct (word_at_value data 3 2) as [Haddr _];
    [apply (descriptor_byte data 3 Hok); lia
    |apply (descriptor_byte data 2 Hok); lia|].
  destruct (word_at_value data 7 6) as [_ Hcount];
    [apply (descriptor_byte data 7 Hok); lia
    |apply (descriptor_byte data 6 Hok); lia|].
  assert ((usbFunctionSetup data st).1 = 255
          /\ isp_log (usbFunctionSetup data st).2 = isp_log st
          /\ prog_nbytes (usbFunctionSetup data st).2
             = wrap16 (word_at data 7 6)
          /\ prog_address (usbFunctionSetup data st).2
             = wrap32 (word_at data 3 2)) as (Hret & Hlog & Hn & Ha).
  { clear Haddr Hcount Hok. split_distinct Hd.
    unfold transfer_funcs in Hop. rewrite !elem_of_cons in Hop.
    destruct Hop as [Hop|[Hop|[Hop|[Hop|Hop]]]];
      [| | | |now apply elem_of_nil in Hop];
      setup_cases;
      rewrite (decide_True (P := prog_address_newmode st = 0)) by done;
      repeat split; try case_decide; reflexivity. }
  rewrite Hret, Hlog, Hn, Ha, Hcount, Haddr.
  repeat split; unfold legacy_address; intros; case_decide; lia.
Qed.

(** ** What the commands leave alone *)



(** Only connect, disconnect, transmit and enable-programming reach the
    target or the board: any other descriptor makes no call at all. *)
Theorem only_target_commands_call (data : list Z) (st : state) :
  Forall (fun f => data.[1] <> f) target_funcs ->
  isp_log (usbFunctionSetup data st).2 = isp_log st.
Proof.
  intros Hf. unfold target_funcs in Hf. split_forall Hf.
  setup_walk; repeat (case_decide; state_simpl); reflexivity.
Qed.

(** ** Replies *)

(** Transmit sends [data[2]], [data[3]], [data[4]], [data[5]] to the target
    in this order and returns 4; the first four bytes of the reply buffer
    are the four answers in the same order, the other four bytes are as
    before. *)
Theorem transmit_replies (data : list Z) (st : state) :
  funcs_distinct ->
  data.[1] = USBASP_FUNC_TRANSMIT ->
  length (replyBuffer st) = 8%nat ->
  let h0 := isp_log st in
  let h1 := h0 ++ [IspTransmit data.[2]] in
  let h2 := h1 ++ [IspTransmit data.[3]] in
  let h3 := h2 ++ [IspTransmit data.[4]] in
  (usbFunctionSetup data st).1 = 4
  /\ isp_log (usbFunctionSetup data st).2 = h3 ++ [IspTransmit data.[5]]
  /\ replyBuffer (usbFunctionSetup data st).2
     = [isp_reply h0 (IspTransmit data.[2]);
        isp_reply h1 (IspTransmit data.[3]);
        isp_reply h2 (IspTransmit data.[4]);
        isp_reply h3 (IspTransmit data.[5])]
       ++ drop 4 (replyBuffer st).
Proof.
  intros Hd Hop Hlen h0 h1 h2 h3. subst h0 h1 h2 h3. split_distinct Hd.
  setup_cases.
  destruct (replyBuffer st) as [|x0 [|x1 [|x2 [|x3 rest]]]];
    try discriminate Hlen.
  repeat split.
Qed.

(** ** Connect and the clock option *)

(** A set-SCK command followed by a connect: the connect reads the
    slow-clock pin, selects the 8 kHz option when the pin bit is clear and
    the option of the set-SCK command otherwise, switches the LED on and
    connects, in this order. It clears the new addressing mode and does
    not end a transfer in progress. *)
Theorem sck_option_used_by_connect (d_sck d_con : list Z) (st : state) :
  funcs_distinct ->
  d_sck.[1] = USBASP_FUNC_SETISPSCK ->
  d_con.[1] = USBASP_FUNC_CONNECT ->
  let st1 := (usbFunctionSetup d_sck st).2 in
  let st2 := (usbFunctionSetup d_con st1).2 in
  let pin := isp_reply (isp_log st) SlowSckPin in
  (usbFunctionSetup d_sck st).1 = 1
  /\ (usbFunctionSetup d_con st1).1 = 0
  /\ isp_log st2
     = isp_log st
       ++ [SlowSckPin;
           IspSetSCKOption
             (if decide (Z.land pin (Z.shiftl 1 SLOW_SCK_NUM) = 0)
              then USBASP_ISP_SCK_8 else d_sck.[2]);
           LedRedOn; IspConnect]
  /\ prog_address_newmode st2 = 0
  /\ prog_state st2 = prog_state st
  /\ prog_nbytes st2 = prog_nbytes st.
Proof.
  intros Hd Hsck Hcon st1 st2 pin. subst st1 st2 pin. split_distinct Hd.
  setup_cases. case_decide; state_simpl; rewrite <- !app_assoc; repeat split.
Qed.

(** Two connects in a row: the second one selects the clock option again
    and leaves every variable of the session as the first one left it. *)
Theorem connect_idempotent (d1 d2 : list Z) (st : state) :
  d1.[1] = USBASP_FUNC_CONNECT ->
  d2.[1] = USBASP_FUNC_CONNECT ->
  let st1 := (usbFunctionSetup d1 st).2 in
  let st2 := (usbFunctionSetup d2 st1).2 in
  let pin := isp_reply (isp_log st1) SlowSckPin in
  st2 = set_isp_log (isp_log st2) st1
  /\ prog_address_newmode st1 = 0
  /\ isp_log st2
     = isp_log st1
       ++ [SlowSckPin;
           IspSetSCKOption
             (if decide (Z.land pin (Z.shiftl 1 SLOW_SCK_NUM) = 0)
              then USBASP_ISP_SCK_8 else prog_sck st);
           LedRedOn; IspConnect].
Proof.
  intros H1 H2 st1 st2 pin. subst st1 st2 pin.
  setup_walk. repeat (case_decide; state_simpl);
    rewrite <- ?app_assoc; repeat split.
Qed.

(** * Every reachable state *)

(** ** What the two engines leave alone *)

Lemma write_byte_frame b st :
  prog_address_newmode (write_byte b st) = prog_address_newmode st
  /\ replyBuffer (write_byte b st) = replyBuffer st
  /\ prog_sck (write_byte b st) = prog_sck st.
Proof. repeat split; write_byte_cases. Qed.

Lemma write_bytes_frame l st :
  prog_address_newmode (write_bytes l st) = prog_address_newmode st
  /\ replyBuffer (write_bytes l st) = replyBuffer st
  /\ prog_sck (write_bytes l st) = prog_sck st.
Proof.
  induction l as [|b l IH] using rev_ind; [done|].
  rewrite write_bytes_snoc.
  destruct (write_byte_frame b (write_bytes l st)) as (-> & -> & ->).
  exact IH.
Qed.

(** The mode after some bytes is the mode before, or idle. *)
Lemma write_bytes_state l st :
  prog_state (write_bytes l st) = prog_state st
  \/ prog_state (write_bytes l st) = PROG_STATE_IDLE.
Proof.
  induction l as [|b l IH] using rev_ind; [now left|].
  rewrite write_bytes_snoc, write_byte_state. case_decide; [now right|].
  exact IH.
Qed.

Lemma usbFunctionWrite_state data st :
  (usbFunctionWrite data st).2 = st
  \/ (usbFunctionWrite data st).2 = write_bytes data st.
Proof.
  unfold usbFunctionWrite. case_decide; [now left|right].
  apply write_loop_snd.
Qed.

(** The read loop changes the address and the log only. *)
Lemma read_loop_frame n st :
  (read_loop n st).2
  = set_prog_address (prog_address (read_loop n st).2)
      (set_isp_log (isp_log (read_loop n st).2) st).
Proof.
  revert st. induction n as [|n IH]; intros st; [now destruct st|].
  cbn [read_loop]. rewrite read_iteration_eq.
  specialize (IH (set_prog_address (wrap32 (prog_address st + 1))
                    (set_isp_log
                       (isp_log st
                        ++ [read_call (prog_state st) (prog_address st)])
                       st))).
  destruct (read_loop n _) as [bs st2]. cbn [snd] in *.
  rewrite IH at 1. reflexivity.
Qed.

Lemma usbFunctionRead_frame len st :
  let st' := (usbFunctionRead len st).2 in
  prog_address_newmode st' = prog_address_newmode st
  /\ replyBuffer st' = replyBuffer st
  /\ prog_sck st' = prog_sck st
  /\ prog_nbytes st' = prog_nbytes st
  /\ prog_pagesize st' = prog_pagesize st
  /\ prog_blockflags st' = prog_blockflags st
  /\ prog_pagecounter st' = prog_pagecounter st
  /\ (prog_state st' = prog_state st \/ prog_state st' = PROG_STATE_IDLE).
Proof.
  unfold usbFunctionRead. case_decide; [cbn; tauto|].
  pose proof (read_loop_frame (Z.to_nat len) st) as Hf.
  destruct (read_loop (Z.to_nat len) st) as [bs st1]. cbn [snd] in *.
  rewrite Hf. case_decide; cbn; tauto.
Qed.

(** ** The new addressing mode is sticky *)

Lemma setup_newmode_kept data st :
  data.[1] <> USBASP_FUNC_CONNECT ->
  prog_address_newmode st <> 0 ->
  prog_address_newmode (usbFunctionSetup data st).2 <> 0.
Proof.
  intros Hop Hnew.
  setup_walk; repeat (case_decide; state_simpl); solve [exact Hnew | lia].
Qed.

(** Once set, the new addressing mode stays set over any sequence of calls
    that holds no connect command: no other command and neither engine
    clears it. *)
Theorem newmode_sticky (calls : list usb_call) (st : state) :
  Forall (fun c => ~ is_connect c) calls ->
  prog_address_newmode st <> 0 ->
  prog_address_newmode (usb_run calls st) <> 0.
Proof.
  intros Hcalls. revert st.
  induction Hcalls as [|c calls Hc _ IH]; intros st Hnew; [exact Hnew|].
  apply IH. destruct c as [data|len|data]; cbn [usb_step].
  - apply setup_newmode_kept; [exact Hc|exact Hnew].
  - destruct (usbFunctionRead_frame len st) as (-> & _). exact Hnew.
  - destruct (usbFunctionWrite_state data st) as [->| ->]; [exact Hnew|].
    destruct (write_bytes_frame data st) as (-> & _). exact Hnew.
Qed.

(** ** The invariant *)

Lemma setup_replyBuffer_length data st :
  length (replyBuffer (usbFunctionSetup data st).2)
  = length (replyBuffer st).
Proof.
  setup_walk; repeat (case_decide; state_simpl);
    rewrite ?length_insert; reflexivity.
Qed.

Lemma setup_eeprom_mode data st :
  (prog_state st = PROG_STATE_WRITEEEPROM ->
   prog_pagesize st = 0 /\ prog_blockflags st = 0) ->
  prog_state (usbFunctionSetup data st).2 = PROG_STATE_WRITEEEPROM ->
  prog_pagesize (usbFunctionSetup data st).2 = 0
  /\ prog_blockflags (usbFunctionSetup data st).2 = 0.
Proof.
  intros Hinv.
  setup_walk; repeat (case_decide; state_simpl);
    solve [exact Hinv | discriminate | split; reflexivity].
Qed.

Lemma usb_step_inv c st : state_inv st -> state_inv (usb_step c st).
Proof.
  intros (Hok & Hlen & Hee). destruct c as [data|len|data]; cbn [usb_step].
  - split; [now apply usbFunctionSetup_ok|]. split.
    + now rewrite setup_replyBuffer_length.
    + now apply setup_eeprom_mode.
  - split; [now apply usbFunctionRead_ok|].
    destruct (usbFunctionRead_frame len st)
      as (_ & -> & _ & _ & -> & -> & _ & [-> | ->]);
      (split; [exact Hlen|]); [exact Hee|discriminate].
  - split; [now apply usbFunctionWrite_ok|].
    destruct (usbFunctionWrite_state data st) as [-> | ->]; [done|].
    destruct (write_bytes_frame data st) as (_ & -> & _).
    rewrite write_bytes_pagesize, write_bytes_blockflags.
    split; [exact Hlen|].
    destruct (write_bytes_state data st) as [-> | ->];
      [exact Hee|discriminate].
Qed.

Lemma usb_run_inv calls st : state_inv st -> state_inv (usb_run calls st).
Proof.
  revert st. induction calls as [|c calls IH]; intros st Hinv; [exact Hinv|].
  apply IH, usb_step_inv, Hinv.
Qed.

Lemma reachable_state_inv_aux calls : state_inv (usb_run calls init_state).
Proof.
  apply usb_run_inv. split; [apply init_state_ok|]. split; [reflexivity|].
  discriminate.
Qed.

(** Whatever the transport calls after start-up, in any order and with any
    arguments: every counter stays within its C type, the reply buffer
    keeps its 8 bytes, and whenever the mode is write-EEPROM the page size
    and the block flags are zero. *)
Theorem reachable_state_inv (calls : list usb_call) :
  state_inv (usb_run calls init_state).
Proof. apply reachable_state_inv_aux. Qed.

(** * More of usbFunctionWrite *)

(** ** EEPROM writes *)

Lemma write_byte_eeprom_path b st :
  prog_state st <> PROG_STATE_WRITEFLASH ->
  Z.land (prog_blockflags st) PROG_BLOCKFLAG_LAST = 0 ->
  isp_log (write_byte b st)
  = isp_log st ++ [IspWriteEEPROM (prog_address st) b].
Proof. intros Hm Hlast. write_byte_cases. Qed.

Lemma eeprom_calls_snoc a l b :
  eeprom_calls a (l ++ [b])
  = eeprom_calls a l
    ++ [IspWriteEEPROM (wrap32 (a + Z.of_nat (length l))) b].
Proof.
  unfold eeprom_calls. rewrite imap_app. simpl. now rewrite Nat.add_0_r.
Qed.

Lemma eeprom_prefix l st :
  prog_state st <> PROG_STATE_WRITEFLASH ->
  Z.land (prog_blockflags st) PROG_BLOCKFLAG_LAST = 0 ->
  0 <= prog_address st < 4294967296 ->
  isp_log (write_bytes l st)
  = isp_log st ++ eeprom_calls (prog_address st) l.
Proof.
  intros Hm Hlast Ha. induction l as [|b l IH] using rev_ind.
  - simpl. now rewrite app_nil_r.
  - rewrite write_bytes_snoc, write_byte_eeprom_path.
    + rewrite IH, write_bytes_address, eeprom_calls_snoc, app_assoc by done.
      reflexivity.
    + destruct (write_bytes_state l st) as [-> | ->];
        [exact Hm|discriminate].
    + now rewrite write_bytes_blockflags.
Qed.

(** In write-EEPROM mode, in any state the transport can reach, a chunk of
    any length is written byte by byte with ispWriteEEPROM at consecutive
    addresses, and nothing else is called: no flash write and no page
    flush, whatever the earlier commands left in the page counter. *)
Theorem eeprom_write_calls (calls : list usb_call) (data : list Z) :
  let st := usb_run calls init_state in
  prog_state st = PROG_STATE_WRITEEEPROM ->
  isp_log (usbFunctionWrite data st).2
  = isp_log st ++ eeprom_calls (prog_address st) data.
Proof.
  intros st Hm.
  destruct (reachable_state_inv_aux calls) as ((Ha & _) & _ & Hee).
  fold st in Ha, Hee. destruct (Hee Hm) as [_ Hflags].
  rewrite usbFunctionWrite_snd by now right.
  apply eeprom_prefix; [rewrite Hm; discriminate| |exact Ha].
  rewrite Hflags. apply Z.land_0_l.
Qed.

(** ** Unpaged flash writes *)

Lemma write_byte_unpaged b st :
  prog_state st = PROG_STATE_WRITEFLASH ->
  prog_pagesize st = 0 ->
  prog_pagecounter (write_byte b st) = prog_pagecounter st
  /\ isp_log (write_byte b st) =
     isp_log st
     ++ [IspWriteFlash (prog_address st) b 1]
     ++ (if decide (wrap16 (prog_nbytes st - 1) = 0
                    /\ Z.land (prog_blockflags st) PROG_BLOCKFLAG_LAST <> 0
                    /\ prog_pagecounter st <> 0)
         then [IspFlushPage (prog_address st) b] else []).
Proof.
  intros Hm HP.
  unfold write_byte, write_iteration, ispWriteFlash, ispFlushPage,
    ispWriteEEPROM, isp.
  simpl. repeat (case_decide; simpl); rewrite <- ?app_assoc; simpl;
    solve [ split; reflexivity | tauto
          | exfalso; rewrite HP in *; simpl in *; tauto ].
Qed.

Lemma unpaged_calls_snoc a l b :
  unpaged_calls a (l ++ [b])
  = unpaged_calls a l
    ++ [IspWriteFlash (wrap32 (a + Z.of_nat (length l))) b 1].
Proof.
  unfold unpaged_calls. rewrite imap_app. simpl. now rewrite Nat.add_0_r.
Qed.

Lemma unpaged_prefix l st :
  prog_state st = PROG_STATE_WRITEFLASH ->
  prog_pagesize st = 0 ->
  0 <= prog_nbytes st < 65536 ->
  0 <= prog_address st < 4294967296 ->
  Z.of_nat (length l) <= prog_nbytes st ->
  prog_pagecounter (write_bytes l st) = prog_pagecounter st
  /\ isp_log (write_bytes l st) =
     isp_log st
     ++ unpaged_calls (prog_address st) l
     ++ (if decide (Z.of_nat (length l) = prog_nbytes st
                    /\ Z.land (prog_blockflags st) PROG_BLOCKFLAG_LAST <> 0
                    /\ prog_pagecounter st <> 0)
         then final_flush (prog_address st) l else []).
Proof.
  intros Hm HP Hn Ha.
  induction l as [|b l IH] using rev_ind; intros Hlen.
  - split; [reflexivity|]. simpl. unfold final_flush. simpl.
    case_decide; now rewrite app_nil_r.
  - rewrite length_app in Hlen |- *. cbn [length] in Hlen |- *.
    replace (Z.of_nat (length l + 1)) with (Z.of_nat (length l) + 1)
      in Hlen |- * by lia.
    destruct IH as [IHpc IHlog]; [lia|].
    rewrite decide_False, app_nil_r in IHlog by lia.
    assert (prog_state (write_bytes l st) = PROG_STATE_WRITEFLASH) as Hms
      by (rewrite write_bytes_state_before; [done|done|lia]).
    assert (prog_pagesize (write_bytes l st) = 0) as HPs
      by now rewrite write_bytes_pagesize.
    destruct (write_byte_unpaged b (write_bytes l st) Hms HPs)
      as [Hpc' Hlog'].
    rewrite write_bytes_snoc, Hpc', Hlog'. clear Hpc' Hlog'.
    rewrite write_bytes_blockflags, IHpc, IHlog.
    rewrite write_bytes_nbytes, write_bytes_address by done.
    rewrite wrap16_sub_l, (wrap16_small (_ - _ - 1)) by lia.
    rewrite unpaged_calls_snoc.
    unfold final_flush. rewrite last_snoc, length_app. cbn [length].
    replace (prog_address st + Z.of_nat (length l + 1) - 1)
      with (prog_address st + Z.of_nat (length l)) by lia.
    split; [reflexivity|]. rewrite <- !app_assoc. do 3 f_equal.
    apply decide_ext. intuition lia.
Qed.

(** An unpaged flash write (page size 0) of exactly [prog_nbytes] bytes,
    in chunks: every byte is written with ispWriteFlash in its immediate
    mode at consecutive addresses, and the mode is idle after the last
    byte. The page is never flushed, except once on the last byte when the
    last-block flag is set and an earlier transfer left a nonzero page
    counter. *)
Theorem unpaged_flash_write (chunks : list (list Z)) (st : state) :
  prog_state st = PROG_STATE_WRITEFLASH ->
  session_ok st ->
  prog_pagesize st = 0 ->
  0 < prog_nbytes st ->
  Z.of_nat (length (concat chunks)) = prog_nbytes st ->
  let st' := (write_session chunks st).2 in
  calls_since st st'
  = unpaged_calls (prog_address st) (concat chunks)
    ++ (if decide (Z.land (prog_blockflags st) PROG_BLOCKFLAG_LAST <> 0
                   /\ prog_pagecounter st <> 0)
        then final_flush (prog_address st) (concat chunks) else [])
  /\ prog_state st' = PROG_STATE_IDLE
  /\ prog_nbytes st' = 0
  /\ prog_pagecounter st' = prog_pagecounter st.
Proof.
  intros Hm (Ha & Hn & _) HP Hpos Hlen st'.
  assert (st' = write_bytes (concat chunks) st) as ->
    by (apply write_session_flat; [now left|done|lia]).
  destruct (unpaged_prefix (concat chunks) st Hm HP Hn Ha ltac:(lia))
    as [Hpc Hlog].
  split; [|split; [|split; [|exact Hpc]]].
  - apply calls_since_app. rewrite Hlog. do 2 f_equal.
    apply decide_ext. tauto.
  - apply write_bytes_state_after; lia.
  - rewrite write_bytes_nbytes, Hlen, Z.sub_diag by done. reflexivity.
Qed.

(** ** What the transport is told *)

Lemma reaches_zero_iff data st :
  0 <= prog_nbytes st < 65536 ->
  Z.of_nat (length data) < 65536 ->
  reaches_zero data st <-> 0 < prog_nbytes st <= Z.of_nat (length data).
Proof.
  intros Hn Hlen. unfold reaches_zero. split.
  - intros (k & Hk & Hz). rewrite write_bytes_nbytes in Hz by done.
    rewrite length_take, Nat.min_l in Hz by lia.
    apply wrap16_zero in Hz; lia.
  - intros Hpos. exists (pred (Z.to_nat (prog_nbytes st))). split; [lia|].
    rewrite write_bytes_nbytes by done.
    rewrite length_take, Nat.min_l by lia.
    replace (prog_nbytes st - _) with 0 by lia. reflexivity.
Qed.

Lemma write_session_returns_gen rem chunks st :
  Forall (fun c => (length c <= 255)%nat) chunks ->
  ((prog_state st = PROG_STATE_WRITEFLASH
    \/ prog_state st = PROG_STATE_WRITEEEPROM)
   /\ prog_nbytes st = rem /\ 0 < rem < 65536)
  \/ (prog_state st <> PROG_STATE_WRITEFLASH
      /\ prog_state st <> PROG_STATE_WRITEEEPROM /\ rem <= 0) ->
  (write_session chunks st).1 = session_returns rem chunks.
Proof.
  intros Hchunks. revert rem st.
  induction Hchunks as [|c cs Hc _ IH]; intros rem st Hst; [reflexivity|].
  cbn [write_session session_returns].
  destruct Hst as [(Hm & Hn & Hrem)|(Hm1 & Hm2 & Hrem)].
  - rewrite decide_False by lia.
    pose proof (usbFunctionWrite_snd c st Hm) as Hsnd.
    pose proof (usbFunctionWrite_valid c st Hm) as Hval.
    destruct (write_loop_fst c 0 st) as [Hone Hzero].
    pose proof (reaches_zero_iff c st ltac:(lia) ltac:(lia)) as Hiff.
    destruct (usbFunctionWrite c st) as [r st1] eqn:E.
    cbn [snd] in Hsnd. subst st1. rewrite <- Hval in Hone, Hzero.
    cbn [fst] in Hone, Hzero.
    destruct (decide (rem <= Z.of_nat (length c))) as [Hend|Hmore].
    + specialize (IH 0 (write_bytes c st)).
      destruct (write_session cs (write_bytes c st)) as [rs st2].
      cbn [fst] in *. rewrite Hone by (apply Hiff; lia). f_equal.
      apply IH. right.
      rewrite write_bytes_state_after by lia.
      repeat split; (discriminate || lia).
    + specialize (IH (rem - Z.of_nat (length c)) (write_bytes c st)).
      destruct (write_session cs (write_bytes c st)) as [rs st2].
      cbn [fst] in *. rewrite Hzero by (rewrite Hiff; lia). f_equal.
      apply IH. left.
      rewrite write_bytes_state_before, write_bytes_nbytes by lia.
      rewrite wrap16_small by lia. repeat split; (exact Hm || lia).
  - rewrite decide_True by exact Hrem.
    unfold usbFunctionWrite. rewrite decide_True by done.
    specialize (IH rem st).
    destruct (write_session cs st) as [rs st2]. cbn [fst] in *. f_equal.
    apply IH. now right.
Qed.

(** The return values of usbFunctionWrite over the chunks (of at most 255
    bytes) of a transfer of [prog_nbytes > 0] bytes: 0 for every chunk
    that leaves bytes missing, 1 for the chunk in which the count is
    reached, and 0xFF for every chunk offered after that one. *)
Theorem write_session_return_values (chunks : list (list Z)) (st : state) :
  prog_state st = PROG_STATE_WRITEFLASH
  \/ prog_state st = PROG_STATE_WRITEEEPROM ->
  session_ok st ->
  0 < prog_nbytes st ->
  Forall (fun c => (length c <= 255)%nat) chunks ->
  (write_session chunks st).1 = session_returns (prog_nbytes st) chunks.
Proof.
  intros Hm (_ & Hn & _) Hpos Hchunks.
  apply write_session_returns_gen; [exact Hchunks|left].
  repeat split; (exact Hm || lia).
Qed.

(** A byte count of zero: the counter is decremented before it is tested,
    so it wraps to 65535 on the first byte and the transfer is not
    complete after any number of bytes below 65536. *)
Lemma write_session_no_end chunks st :
  prog_state st = PROG_STATE_WRITEFLASH
  \/ prog_state st = PROG_STATE_WRITEEEPROM ->
  0 <= prog_nbytes st < 65536 ->
  (prog_nbytes st = 0 /\ Z.of_nat (length (concat chunks)) < 65536)
  \/ Z.of_nat (length (concat chunks)) < prog_nbytes st ->
  (write_session chunks st).1 = replicate (length chunks) 0
  /\ prog_state (write_session chunks st).2 = prog_state st
  /\ prog_nbytes (write_session chunks st).2
     = wrap16 (prog_nbytes st - Z.of_nat (length (concat chunks))).
Proof.
  revert st. induction chunks as [|c cs IH]; intros st Hm Hn Hcase.
  - cbn. rewrite Z.sub_0_r, wrap16_small by done. done.
  - cbn [write_session concat length replicate] in *.
    rewrite length_app in *.
    pose proof (usbFunctionWrite_snd c st Hm) as Hsnd.
    pose proof (usbFunctionWrite_valid c st Hm) as Hval.
    destruct (write_loop_fst c 0 st) as [_ Hzero].
    rewrite <- Hval in Hzero.
    assert (~ reaches_zero c st) as Hnot.
    { rewrite reaches_zero_iff by lia. lia. }
    specialize (Hzero Hnot).
    destruct (usbFunctionWrite c st) as [r st1].
    cbn [fst snd] in Hzero, Hsnd. subst r st1.
    assert (prog_state (write_bytes c st) = prog_state st) as Hm'.
    { destruct (decide (c = [])) as [->|Hne]; [reflexivity|].
      assert (0 < length c)%nat by (destruct c; [done|simpl; lia]).
      destruct Hcase as [[Hz Htot]|Hlt].
      - destruct c as [|b c]; [done|].
        change (write_bytes (b :: c) st)
          with (write_bytes c (write_byte b st)).
        assert (prog_state (write_byte b st) = prog_state st) as Hb.
        { rewrite write_byte_state, Hz. now rewrite decide_False. }
        rewrite <- Hb. apply write_bytes_state_before.
        + rewrite write_byte_nbytes. apply wrap16_range.
        + rewrite write_byte_nbytes, Hz. cbn [length] in Htot.
          change (wrap16 (0 - 1)) with 65535. lia.
      - apply write_bytes_state_before; lia. }
    specialize (IH (write_bytes c st)).
    rewrite Hm', write_bytes_nbytes in IH by done.
    destruct (write_session cs (write_bytes c st)) as [rs st2].
    cbn [fst snd] in *.
    destruct IH as (IHr & IHm & IHn);
      [exact Hm|apply wrap16_range| |].
    + destruct Hcase as [[Hz Htot]|Hlt].
      * destruct (decide (c = [])) as [->|Hne].
        { left. rewrite Hz. cbn [length] in *. split; [reflexivity|lia]. }
        right. assert (0 < length c)%nat by (destruct c; [done|simpl; lia]).
        rewrite Hz, wrap16_neg by lia. lia.
      * right. rewrite wrap16_small by lia. lia.
    + split; [now rewrite IHr|]. split; [exact IHm|].
      rewrite IHn, wrap16_sub_l. f_equal. lia.
Qed.

(** A write command with the byte count 0 opens a transfer that does not
    end: over chunks of fewer than 65536 bytes in all, every call returns
    0 and the mode stays what the command set; the counter wraps to
    65535 on the first byte. *)
Theorem zero_count_write_never_completes
    (chunks : list (list Z)) (st : state) :
  prog_state st = PROG_STATE_WRITEFLASH
  \/ prog_state st = PROG_STATE_WRITEEEPROM ->
  prog_nbytes st = 0 ->
  Z.of_nat (length (concat chunks)) < 65536 ->
  (write_session chunks st).1 = replicate (length chunks) 0
  /\ prog_state (write_session chunks st).2 = prog_state st
  /\ prog_nbytes (write_session chunks st).2
     = wrap16 (- Z.of_nat (length (concat chunks))).
Proof.
  intros Hm Hz Htot.
  destruct (write_session_no_end chunks st Hm ltac:(lia) ltac:(left; lia))
    as (Hr & Hs & Hn).
  rewrite Hz in Hn. repeat split; [exact Hr|exact Hs|exact Hn].
Qed.

(** * More of usbFunctionRead *)

Lemma read_session_full lens st :
  prog_state st = PROG_STATE_READFLASH
  \/ prog_state st = PROG_STATE_READEEPROM ->
  0 <= prog_address st < 4294967296 ->
  Forall (fun len => 8 <= len) lens ->
  prog_state (read_session lens st).2 = prog_state st
  /\ prog_nbytes (read_session lens st).2 = prog_nbytes st
  /\ Z.of_nat (length (concat (read_session lens st).1))
     = foldr Z.add 0 lens.
Proof.
  intros Hm Ha Hlens. revert st Hm Ha.
  induction Hlens as [|len lens Hlen _ IH]; intros st Hm Ha; [done|].
  cbn [read_session]. rewrite usbFunctionRead_valid by done.
  rewrite decide_False by lia.
  destruct (after_read_ok (Z.to_nat len) st) as [Hm1 Ha1].
  specialize (IH (after_read (Z.to_nat len) st)).
  rewrite Hm1 in IH. specialize (IH Hm Ha1).
  destruct (read_session lens (after_read (Z.to_nat len) st)) as [ds st2].
  cbn [fst snd] in *. destruct IH as (IHm & IHn & IHl).
  split; [exact IHm|]. split; [exact IHn|].
  cbn [concat foldr]. rewrite length_app, target_bytes_length.
  rewrite Nat2Z.inj_add, IHl. lia.
Qed.

(** usbFunctionRead never looks at [prog_nbytes]: as long as the chunks
    requested are full (8 bytes or more), the read mode stays and bytes
    keep being delivered, however many bytes the command announced. *)
Theorem read_never_ends_by_count (lens : list Z) (st : state) :
  prog_state st = PROG_STATE_READFLASH
  \/ prog_state st = PROG_STATE_READEEPROM ->
  session_ok st ->
  Forall (fun len => 8 <= len) lens ->
  prog_state (read_session lens st).2 = prog_state st
  /\ prog_nbytes (read_session lens st).2 = prog_nbytes st
  /\ Z.of_nat (length (concat (read_session lens st).1))
     = foldr Z.add 0 lens.
Proof. intros Hm (Ha & _). now apply read_session_full. Qed.

(** A chunk shorter than 8 ends the read transfer: the mode is idle after
    it, and every further read is refused with 0xFF, delivers no byte and
    leaves the state alone. A request of length 0 is such a chunk: it
    reads nothing and only sets the mode to idle. *)
Theorem short_read_ends_transfer (len : Z) (st : state) :
  prog_state st = PROG_STATE_READFLASH
  \/ prog_state st = PROG_STATE_READEEPROM ->
  0 <= len < 8 ->
  let st' := (usbFunctionRead len st).2 in
  prog_state st' = PROG_STATE_IDLE
  /\ (forall len' : Z, usbFunctionRead len' st' = (255, [], st'))
  /\ (len = 0 ->
      usbFunctionRead len st = (0, [], set_prog_state PROG_STATE_IDLE st)).
Proof.
  intros Hm Hlen st'.
  assert (prog_state st' = PROG_STATE_IDLE) as Hidle.
  { subst st'. unfold usbFunctionRead.
    rewrite decide_False by (destruct Hm as [-> | ->]; intros [? ?]; done).
    destruct (read_loop (Z.to_nat len) st) as [bs st1].
    now rewrite decide_True by lia. }
  split; [exact Hidle|]. split.
  - intros len'. unfold usbFunctionRead at 1.
    rewrite decide_True; [reflexivity|]. rewrite Hidle. split; discriminate.
  - intros ->. unfold usbFunctionRead.
    rewrite decide_False by (destruct Hm as [-> | ->]; intros [? ?]; done).
    reflexivity.
Qed.

(** * More on the page counter *)

Lemma write_bytes_pagecounter_inv l st :
  0 < prog_pagesize st < 256 ->
  0 < prog_pagecounter st <= prog_pagesize st ->
  0 < prog_pagecounter (write_bytes l st) <= prog_pagesize st.
Proof.
  intros HP Hpc. induction l as [|b l IH] using rev_ind; [exact Hpc|].
  rewrite write_bytes_snoc.
  pose proof (write_byte_pagecounter_inv b (write_bytes l st)) as Hstep.
  rewrite write_byte_pagesize, write_bytes_pagesize in Hstep.
  apply Hstep; [exact HP|exact IH].
Qed.

(** With a page size of 1 to 255, a call of usbFunctionWrite, in any mode
    and on any chunk, keeps [0 < prog_pagecounter <= prog_pagesize] and
    does not change the page size. *)
Theorem pagecounter_within_page (data : list Z) (st : state) :
  0 < prog_pagesize st < 256 ->
  0 < prog_pagecounter st <= prog_pagesize st ->
  prog_pagesize (usbFunctionWrite data st).2 = prog_pagesize st
  /\ 0 < prog_pagecounter (usbFunctionWrite data st).2 <= prog_pagesize st.
Proof.
  intros HP Hpc.
  destruct (usbFunctionWrite_state data st) as [-> | ->]; [done|].
  split; [apply write_bytes_pagesize|].
  now apply write_bytes_pagecounter_inv.
Qed.

(** A write-flash command with the first-block flag loads the page counter
    with the page size modulo 256, the counter being one byte wide: the
    counter equals the page size exactly when the page size is below
    256. *)
Theorem first_block_counter_is_a_byte (data : list Z) (st : state) :
  funcs_distinct ->
  session_ok st ->
  data.[1] = USBASP_FUNC_WRITEFLASH ->
  Z.land (Z.land data.[5] 15) PROG_BLOCKFLAG_FIRST <> 0 ->
  let st' := (usbFunctionSetup data st).2 in
  prog_pagecounter st' = prog_pagesize st' mod 256
  /\ (prog_pagecounter st' = prog_pagesize st' <-> prog_pagesize st' < 256).
Proof.
  intros Hd Hok Hop Hfirst st'.
  pose proof (setup_first_block data st Hd Hop Hfirst) as Hpc.
  destruct (usbFunctionSetup_ok data st Hok) as (_ & _ & HP & _).
  fold st' in Hpc, HP. rewrite Hpc. split; [reflexivity|].
  pose proof (wrap8_range (prog_pagesize st')). split.
  - intros E. lia.
  - intros Hlt. apply wrap8_small. lia.
Qed.

(** ** Paged writes with any page size and any counter *)

(** A paged write whose counter says that [j0] bytes of the current page
    came before, for a page size of any width: the page is flushed every
    [flush_period] bytes, and once more on the last byte when the transfer
    is the last block and leaves the counter different from the page
    size. *)
Lemma paged_general j0 l st :
  prog_state st = PROG_STATE_WRITEFLASH ->
  0 < prog_pagesize st ->
  0 <= j0 ->
  prog_pagecounter st
  = wrap8 (flush_period (prog_pagesize st)
           - j0 mod flush_period (prog_pagesize st)) ->
  0 <= prog_nbytes st < 65536 ->
  0 <= prog_address st < 4294967296 ->
  Z.of_nat (length l) <= prog_nbytes st ->
  prog_pagecounter (write_bytes l st)
  = wrap8 (flush_period (prog_pagesize st)
           - (j0 + Z.of_nat (length l))
             mod flush_period (prog_pagesize st))
  /\ isp_log (write_bytes l st) =
     isp_log st
     ++ paged_calls (flush_period (prog_pagesize st))
          (prog_address st - j0) j0 l
     ++ (if decide (Z.of_nat (length l) = prog_nbytes st
                    /\ Z.land (prog_blockflags st) PROG_BLOCKFLAG_LAST <> 0
                    /\ wrap8 (flush_period (prog_pagesize st)
                              - (j0 + Z.of_nat (length l))
                                mod flush_period (prog_pagesize st))
                       <> prog_pagesize st)
         then final_flush (prog_address st) l else []).
Proof.
  intros Hm HP Hj0 Hpc Hn Ha.
  pose proof (flush_period_range (prog_pagesize st)) as HQ.
  pose proof (flush_period_wrap (prog_pagesize st)) as HQw.
  set (Q := flush_period (prog_pagesize st)) in *.
  induction l as [|b l IH] using rev_ind; intros Hlen.
  - cbn [length]. rewrite Z.add_0_r. split; [exact Hpc|].
    unfold final_flush. simpl. case_decide; now rewrite app_nil_r.
  - rewrite length_app in Hlen |- *. cbn [length] in Hlen |- *.
    replace (Z.of_nat (length l + 1)) with (Z.of_nat (length l) + 1)
      in Hlen |- * by lia.
    destruct IH as [IHpc IHlog]; [lia|].
    rewrite decide_False, app_nil_r in IHlog by lia.
    set (j := j0 + Z.of_nat (length l)) in *.
    replace (j0 + (Z.of_nat (length l) + 1)) with (j + 1) by lia.
    pose proof (Z.mod_pos_bound j Q ltac:(lia)) as Hmod.
    pose proof (Z.mod_pos_bound (j + 1) Q ltac:(lia)) as Hmod'.
    assert (prog_state (write_bytes l st) = PROG_STATE_WRITEFLASH) as Hms
      by (rewrite write_bytes_state_before; [done|done|lia]).
    assert (prog_pagesize (write_bytes l st) <> 0) as HPs
      by (rewrite write_bytes_pagesize; lia).
    destruct (write_byte_paged b (write_bytes l st) Hms HPs) as [Hpc' Hlog'].
    rewrite write_bytes_snoc, Hpc', Hlog'. clear Hpc' Hlog'.
    rewrite write_bytes_pagesize, write_bytes_blockflags, IHpc, IHlog.
    rewrite write_bytes_nbytes, write_bytes_address by done.
    rewrite wrap16_sub_l, counter_step by lia.
    rewrite (wrap16_small (_ - _ - 1)) by lia.
    rewrite paged_calls_app. cbn [paged_calls]. rewrite app_nil_r.
    fold j. replace (prog_address st - j0 + j)
      with (prog_address st + Z.of_nat (length l)) by lia.
    unfold final_flush. rewrite last_snoc, length_app. cbn [length].
    replace (prog_address st + Z.of_nat (length l + 1) - 1)
      with (prog_address st + Z.of_nat (length l)) by lia.
    destruct (succ_div_mod Q j ltac:(lia) ltac:(lia))
      as [(Hz & Hlast & _)|(Hnz & Hsucc & _)].
    + destruct (decide (Q - j mod Q - 1 = 0)) as [_|Hne]; [|lia].
      rewrite (decide_True (P := (j + 1) mod Q = 0)) by exact Hz.
      rewrite Hz, Z.sub_0_r, HQw. split; [reflexivity|].
      rewrite <- !app_assoc. cbn [app]. do 4 f_equal.
      apply decide_ext. intuition lia.
    + destruct (decide (Q - j mod Q - 1 = 0)) as [He|_]; [lia|].
      rewrite (decide_False (P := (j + 1) mod Q = 0)) by exact Hnz.
      rewrite Hsucc.
      rewrite (wrap8_small (Q - (j mod Q + 1))) by lia.
      split; [lia|]. rewrite <- !app_assoc. cbn [app]. do 3 f_equal.
      apply decide_ext. intuition lia.
Qed.

Lemma paged_session_general j0 chunks st :
  prog_state st = PROG_STATE_WRITEFLASH ->
  session_ok st ->
  0 < prog_pagesize st ->
  0 <= j0 ->
  prog_pagecounter st
  = wrap8 (flush_period (prog_pagesize st)
           - j0 mod flush_period (prog_pagesize st)) ->
  0 < prog_nbytes st ->
  Z.of_nat (length (concat chunks)) = prog_nbytes st ->
  let st' := (write_session chunks st).2 in
  let Q := flush_period (prog_pagesize st) in
  let pc := wrap8 (Q - (j0 + prog_nbytes st) mod Q) in
  prog_state st' = PROG_STATE_IDLE
  /\ prog_pagecounter st' = pc
  /\ isp_log st' =
     isp_log st
     ++ paged_calls Q (prog_address st - j0) j0 (concat chunks)
     ++ (if decide (Z.land (prog_blockflags st) PROG_BLOCKFLAG_LAST <> 0
                    /\ pc <> prog_pagesize st)
         then final_flush (prog_address st) (concat chunks) else []).
Proof.
  intros Hm (Ha & Hn & _) HP Hj0 Hpc Hpos Hlen st' Q pc.
  assert (st' = write_bytes (concat chunks) st) as ->
    by (apply write_session_flat; [now left|done|lia]).
  destruct (paged_general j0 (concat chunks) st Hm HP Hj0 Hpc Hn Ha
              ltac:(lia)) as [Hpc' Hlog'].
  rewrite Hlen in Hpc', Hlog'. fold Q in Hpc', Hlog'. fold pc in Hpc', Hlog'.
  split; [apply write_bytes_state_after; lia|]. split; [exact Hpc'|].
  rewrite Hlog'. do 2 f_equal. apply decide_ext. tauto.
Qed.

Lemma final_flush_count a l :
  l <> [] -> count_flush (final_flush a l) = 1%nat.
Proof.
  intros Hl. unfold final_flush. destruct (last l) eqn:E; [reflexivity|].
  apply last_None in E. contradiction.
Qed.

(** A first block with any page size [P] from 1 to 65535: the counter is
    loaded with [P mod 256], so the page is flushed every [P] bytes only
    when [P] is below 256; otherwise every [P mod 256] bytes, or every 256
    bytes when [P] is a multiple of 256. With the last-block flag, the
    last byte is followed by one more flush unless [P] is below 256 and
    divides the byte count. *)
Theorem flush_period_of_any_page_size
    (chunks : list (list Z)) (st : state) :
  prog_state st = PROG_STATE_WRITEFLASH ->
  session_ok st ->
  0 < prog_pagesize st ->
  prog_pagecounter st = wrap8 (prog_pagesize st) ->
  0 < prog_nbytes st ->
  Z.of_nat (length (concat chunks)) = prog_nbytes st ->
  let st' := (write_session chunks st).2 in
  let P := prog_pagesize st in
  let K := prog_nbytes st in
  calls_since st st'
  = paged_calls (flush_period P) (prog_address st) 0 (concat chunks)
    ++ (if decide (Z.land (prog_blockflags st) PROG_BLOCKFLAG_LAST <> 0
                   /\ (256 <= P \/ K mod P <> 0))
        then final_flush (prog_address st) (concat chunks) else [])
  /\ Z.of_nat (count_flush (calls_since st st'))
     = K / flush_period P
       + (if decide (Z.land (prog_blockflags st) PROG_BLOCKFLAG_LAST <> 0
                     /\ (256 <= P \/ K mod P <> 0))
          then 1 else 0)
  /\ (P < 256 -> flush_period P = P)
  /\ (256 <= P -> flush_period P < P \/ P = 256).
Proof.
  intros Hm Hok HP Hpc Hpos Hlen st' P K.
  pose proof (flush_period_range P) as HQ.
  assert (prog_pagecounter st
          = wrap8 (flush_period P - 0 mod flush_period P)) as Hpc0.
  { rewrite Z.mod_0_l, Z.sub_0_r by lia.
    now rewrite flush_period_wrap. }
  destruct (paged_session_general 0 chunks st Hm Hok HP ltac:(lia) Hpc0
              Hpos Hlen) as (_ & _ & Hlog).
  fold st' P K in Hlog. rewrite Z.add_0_l, Z.sub_0_r in Hlog.
  assert (concat chunks <> []) as Hne.
  { intros E. rewrite E in Hlen. simpl in Hlen. lia. }
  assert (calls_since st st'
          = paged_calls (flush_period P) (prog_address st) 0 (concat chunks)
            ++ (if decide
                     (Z.land (prog_blockflags st) PROG_BLOCKFLAG_LAST <> 0
                      /\ (256 <= P \/ K mod P <> 0))
                then final_flush (prog_address st) (concat chunks)
                else [])) as Hcalls.
  { apply calls_since_app. rewrite Hlog. do 2 f_equal.
    apply decide_ext.
    pose proof (Z.mod_pos_bound K (flush_period P) ltac:(lia)) as Hmod.
    pose proof (wrap8_range (flush_period P - K mod flush_period P)) as Hw.
    destruct (decide (P < 256)) as [Hsmall|Hbig].
    - rewrite flush_period_small in * by lia.
      rewrite wrap8_small by lia. intuition lia.
    - intuition lia. }
  split; [exact Hcalls|]. split; [|split].
  - rewrite Hcalls, count_flush_app, Nat2Z.inj_add.
    rewrite count_flush_paged, Hlen by lia.
    rewrite Z.add_0_l, Z.div_0_l, Z.sub_0_r by lia. f_equal.
    case_decide; [|reflexivity].
    now rewrite final_flush_count by exact Hne.
  - intros Hsmall. apply flush_period_small. lia.
  - intros Hbig. lia.
Qed.

(** ** Blocks that continue a page *)

Lemma later_block_session chunks st :
  prog_state st = PROG_STATE_WRITEFLASH ->
  session_ok st ->
  0 < prog_pagesize st < 256 ->
  0 < prog_pagecounter st <= prog_pagesize st ->
  0 < prog_nbytes st ->
  Z.of_nat (length (concat chunks)) = prog_nbytes st ->
  let st' := (write_session chunks st).2 in
  let P := prog_pagesize st in
  let j0 := P - prog_pagecounter st in
  let K := prog_nbytes st in
  prog_state st' = PROG_STATE_IDLE
  /\ prog_pagecounter st' = P - (j0 + K) mod P
  /\ isp_log st' =
     isp_log st
     ++ paged_calls P (prog_address st - j0) j0 (concat chunks)
     ++ (if decide (Z.land (prog_blockflags st) PROG_BLOCKFLAG_LAST <> 0
                    /\ (j0 + K) mod P <> 0)
         then final_flush (prog_address st) (concat chunks) else [])
  /\ Z.of_nat (count_flush (calls_since st st'))
     = (j0 + K) / P
       + (if decide (Z.land (prog_blockflags st) PROG_BLOCKFLAG_LAST <> 0
                     /\ (j0 + K) mod P <> 0)
          then 1 else 0).
Proof.
  intros Hm Hok HP Hpc Hpos Hlen st' P j0 K.
  pose proof (flush_period_small P HP) as HQ.
  pose proof (Z.mod_pos_bound (j0 + K) P ltac:(lia)) as Hmod.
  assert (prog_pagecounter st
          = wrap8 (flush_period P - j0 mod flush_period P)) as Hpc0.
  { rewrite HQ, Z.mod_small by (subst j0 P; lia).
    rewrite wrap8_small by (subst j0 P; lia). subst j0. lia. }
  destruct (paged_session_general j0 chunks st Hm Hok ltac:(lia)
              ltac:(subst j0 P; lia) Hpc0 Hpos Hlen)
    as (Hidle & Hpc' & Hlog).
  fold st' P K in Hidle, Hpc', Hlog. rewrite HQ in Hpc', Hlog.
  rewrite wrap8_small in Hpc', Hlog by lia.
  assert (concat chunks <> []) as Hne.
  { intros E. rewrite E in Hlen. simpl in Hlen. lia. }
  assert (isp_log st' =
          isp_log st
          ++ paged_calls P (prog_address st - j0) j0 (concat chunks)
          ++ (if decide
                   (Z.land (prog_blockflags st) PROG_BLOCKFLAG_LAST <> 0
                    /\ (j0 + K) mod P <> 0)
              then final_flush (prog_address st) (concat chunks) else []))
    as Hlog'.
  { rewrite Hlog. do 2 f_equal. apply decide_ext. intuition lia. }
  split; [exact Hidle|]. split; [exact Hpc'|]. split; [exact Hlog'|].
  rewrite (calls_since_app _ _ _ Hlog'), count_flush_app, Nat2Z.inj_add.
  rewrite count_flush_paged, Hlen by (subst j0 P; lia). fold K.
  rewrite (Z.div_small j0 P) by (subst j0 P; lia).
  rewrite Z.sub_0_r. f_equal. case_decide; [|reflexivity].
  now rewrite final_flush_count by exact Hne.
Qed.

(** A block that does not start a page (no first-block flag, page size
    [P] of 1 to 255, counter [c] left by the block before): the first
    flush follows the [c]-th byte of the block, not the [P]-th, and the
    next ones come every [P] bytes; the block of [K] bytes is flushed
    [(P - c + K) / P] times, and once more on its last byte when it is the
    last block and ends inside a page. The counter it leaves is again the
    room left in the page. *)
Theorem later_block_continues_page (chunks : list (list Z)) (st : state) :
  prog_state st = PROG_STATE_WRITEFLASH ->
  session_ok st ->
  0 < prog_pagesize st < 256 ->
  0 < prog_pagecounter st <= prog_pagesize st ->
  0 < prog_nbytes st ->
  Z.of_nat (length (concat chunks)) = prog_nbytes st ->
  let st' := (write_session chunks st).2 in
  let P := prog_pagesize st in
  let j0 := P - prog_pagecounter st in
  let K := prog_nbytes st in
  calls_since st st'
  = paged_calls P (prog_address st - j0) j0 (concat chunks)
    ++ (if decide (Z.land (prog_blockflags st) PROG_BLOCKFLAG_LAST <> 0
                   /\ (j0 + K) mod P <> 0)
        then final_flush (prog_address st) (concat chunks) else [])
  /\ Z.of_nat (count_flush (calls_since st st'))
     = (j0 + K) / P
       + (if decide (Z.land (prog_blockflags st) PROG_BLOCKFLAG_LAST <> 0
                     /\ (j0 + K) mod P <> 0)
          then 1 else 0)
  /\ prog_pagecounter st' = P - (j0 + K) mod P
  /\ 0 < prog_pagecounter st' <= P.
Proof.
  intros Hm Hok HP Hpc Hpos Hlen st' P j0 K.
  destruct (later_block_session chunks st Hm Hok HP Hpc Hpos Hlen)
    as (_ & Hpc' & Hlog & Hcount).
  fold st' P j0 K in Hpc', Hlog, Hcount.
  pose proof (Z.mod_pos_bound (j0 + K) P ltac:(lia)) as Hmod.
  split; [now apply calls_since_app|]. split; [exact Hcount|].
  split; [exact Hpc'|]. rewrite Hpc'. lia.
Qed.

Lemma setup_next_block data st :
  funcs_distinct ->
  data.[1] = USBASP_FUNC_WRITEFLASH ->
  Z.land (Z.land data.[5] 15) PROG_BLOCKFLAG_FIRST = 0 ->
  prog_state (usbFunctionSetup data st).2 = PROG_STATE_WRITEFLASH
  /\ prog_pagecounter (usbFunctionSetup data st).2 = prog_pagecounter st
  /\ isp_log (usbFunctionSetup data st).2 = isp_log st.
Proof.
  intros Hd Hop Hfirst. split_distinct Hd. setup_cases.
  rewrite (decide_False (P := Z.land _ _ <> 0)) by (intros Hc; now apply Hc).
  repeat split; case_decide; reflexivity.
Qed.

(** A flash write in two blocks with the same page size [P] below 256: a
    first block of [n1] bytes that starts a page and is not the last, then
    a write-flash command without the first-block flag and its [n2]
    bytes. The page is flushed as if the [n1 + n2] bytes were one stream:
    [(n1 + n2) / P] times, and once more at the end when the second block
    carries the last-block flag and [P] does not divide [n1 + n2]. *)
Theorem two_block_write
    (chunks1 chunks2 : list (list Z)) (data2 : list Z) (st : state) :
  prog_state st = PROG_STATE_WRITEFLASH ->
  session_ok st ->
  0 < prog_pagesize st < 256 ->
  prog_pagecounter st = prog_pagesize st ->
  Z.land (prog_blockflags st) PROG_BLOCKFLAG_LAST = 0 ->
  0 < prog_nbytes st ->
  Z.of_nat (length (concat chunks1)) = prog_nbytes st ->
  let st1 := (write_session chunks1 st).2 in
  let st2 := (usbFunctionSetup data2 st1).2 in
  let st3 := (write_session chunks2 st2).2 in
  funcs_distinct ->
  data2.[1] = USBASP_FUNC_WRITEFLASH ->
  Z.land (Z.land data2.[5] 15) PROG_BLOCKFLAG_FIRST = 0 ->
  prog_pagesize st2 = prog_pagesize st ->
  0 < prog_nbytes st2 ->
  Z.of_nat (length (concat chunks2)) = prog_nbytes st2 ->
  let P := prog_pagesize st in
  let N := prog_nbytes st + prog_nbytes st2 in
  Z.of_nat (count_flush (calls_since st st3))
  = N / P
    + (if decide (Z.land (prog_blockflags st2) PROG_BLOCKFLAG_LAST <> 0
                  /\ N mod P <> 0)
       then 1 else 0).
Proof.
  intros Hm Hok HP Hpc Hlast1 Hpos1 Hlen1 st1 st2 st3 Hd Hop2 Hfirst2 HP2
    Hpos2 Hlen2 P N.
  pose proof (Z.mod_pos_bound (prog_nbytes st) P ltac:(lia)) as Hmod1.
  destruct (later_block_session chunks1 st Hm Hok HP ltac:(lia) Hpos1 Hlen1)
    as (_ & Hpc1 & Hlog1 & Hcount1).
  fold st1 P in Hpc1, Hlog1, Hcount1.
  rewrite Hpc, Z.sub_diag, Z.add_0_l in Hpc1, Hlog1, Hcount1.
  rewrite (decide_False (P := _ /\ _)) in Hlog1 by tauto.
  rewrite (decide_False (P := _ /\ _)) in Hcount1 by tauto.
  rewrite app_nil_r in Hlog1. rewrite Z.add_0_r in Hcount1.
  destruct (setup_next_block data2 st1 Hd Hop2 Hfirst2)
    as (Hm2 & Hpc2 & Hlog2).
  fold st2 in Hm2, Hpc2, Hlog2.
  assert (session_ok st2) as Hok2.
  { apply usbFunctionSetup_ok. unfold st1.
    clear - Hok. revert st Hok.
    induction chunks1 as [|c cs IH]; intros st Hok; [exact Hok|].
    cbn [write_session].
    pose proof (usbFunctionWrite_ok c st Hok) as Hc.
    destruct (usbFunctionWrite c st) as [r s1]. cbn [snd] in Hc.
    specialize (IH s1 Hc). now destruct (write_session cs s1). }
  destruct (later_block_session chunks2 st2 Hm2 Hok2
              ltac:(rewrite HP2; exact HP)
              ltac:(rewrite Hpc2, Hpc1, HP2; fold P; lia) Hpos2 Hlen2)
    as (_ & _ & Hlog3 & Hcount3).
  fold st3 in Hlog3, Hcount3.
  rewrite HP2, Hpc2, Hpc1 in Hlog3, Hcount3. fold P in Hlog3, Hcount3.
  replace (P - (P - prog_nbytes st mod P))
    with (prog_nbytes st mod P) in Hlog3, Hcount3 by lia.
  destruct (div_add_mod (prog_nbytes st) (prog_nbytes st2) P ltac:(lia))
    as [Hdiv Hrem].
  assert (calls_since st st3
          = calls_since st st1 ++ calls_since st2 st3) as ->.
  { rewrite (calls_since_app _ _ _ Hlog1), (calls_since_app _ _ _ Hlog3).
    apply calls_since_app. rewrite Hlog3, Hlog2, Hlog1.
    now rewrite <- !app_assoc. }
  rewrite count_flush_app, Nat2Z.inj_add, Hcount1, Hcount3.
  fold N in Hdiv, Hrem. rewrite Hrem, <- Hdiv. lia.
Qed.

End FirmwareProofs.

(** * Reference runs *)

#[local] Existing Instance reference_usbasp_h.
#[local] Existing Instance demo_isp.

Lemma reference_funcs_distinct : funcs_distinct.
Proof.
  unfold funcs_distinct, known_funcs.
  apply (bool_decide_unpack _). vm_compute. exact I.
Qed.

Ltac run := vm_compute; repeat split; (reflexivity || discriminate).

(** The 64 payload bytes of a one-page block, sent in 8 chunks of 8: one
    flush, issued on the 64th byte, and the last call returns 1 and leaves
    the mode idle. *)
Example one_page_block :
  calls_since Reference.connected_block_64
    (write_session (Reference.chunks_of 8 0) Reference.connected_block_64).2
  = paged_calls 64 0 0 (replicate 64 165)
  /\ last (paged_calls 64 0 0 (replicate 64 165))
     = Some (IspFlushPage 63 165)
  /\ count_flush (paged_calls 64 0 0 (replicate 64 165)) = 1%nat
  /\ (write_session (Reference.chunks_of 8 0)
        Reference.connected_block_64).1
     = [0; 0; 0; 0; 0; 0; 0; 1]
  /\ prog_state
       (write_session (Reference.chunks_of 8 0)
          Reference.connected_block_64).2
     = PROG_STATE_IDLE.
Proof. run. Qed.

(** Ten bytes of EEPROM from address 0x10, read in chunks of 8 and 2: the
    first chunk reads 0x10 to 0x17 and leaves the mode, the second reads
    0x18 and 0x19 and sets the mode to idle. *)
Example eeprom_read_8_then_2 :
  calls_since Reference.eeprom_read_10
    (usbFunctionRead 8 Reference.eeprom_read_10).2
  = map IspReadEEPROM [16; 17; 18; 19; 20; 21; 22; 23]
  /\ prog_state (usbFunctionRead 8 Reference.eeprom_read_10).2
     = PROG_STATE_READEEPROM
  /\ calls_since (usbFunctionRead 8 Reference.eeprom_read_10).2
       (read_session [8; 2] Reference.eeprom_read_10).2
     = map IspReadEEPROM [24; 25]
  /\ prog_state (read_session [8; 2] Reference.eeprom_read_10).2
     = PROG_STATE_IDLE.
Proof. run. Qed.

(** C2, the code at the failing input: a write-flash command with the
    first-block flag and the page size 256 leaves [prog_pagecounter] at 0,
    not at the page size, so [0 < prog_pagecounter] fails; and after the
    256 bytes of the page, the flush of the full page leaves the counter at
    0 again. *)
Theorem C2_pagecounter_truncated :
  prog_state Reference.page_256 = PROG_STATE_WRITEFLASH
  /\ Z.land (prog_blockflags Reference.page_256) PROG_BLOCKFLAG_FIRST <> 0
  /\ prog_pagesize Reference.page_256 = 256
  /\ prog_pagecounter Reference.page_256 = 0
  /\ count_flush
       (calls_since Reference.page_256
          (write_session (Reference.chunks_of 32 0) Reference.page_256).2)
     = 1%nat
  /\ prog_pagecounter
       (write_session (Reference.chunks_of 32 0) Reference.page_256).2 = 0.
Proof. run. Qed.

(** C1 fails as stated. In the last block (64 bytes, page size 64) of a
    write of 264 bytes, the page counter continues from the first block:
    ispFlushPage is called twice, not 64 / 64 = 1 times. With the page size
    512, a first block of 512 bytes is flushed twice, not once. *)
Lemma C1_counterexample :
  (prog_state Reference.last_block_64 = PROG_STATE_WRITEFLASH
   /\ prog_pagesize Reference.last_block_64 = 64
   /\ prog_nbytes Reference.last_block_64 = 64
   /\ length (concat (Reference.chunks_of 8 0)) = 64%nat
   /\ count_flush
        (calls_since Reference.last_block_64
           (write_session (Reference.chunks_of 8 0)
              Reference.last_block_64).2)
      = 2%nat)
  /\ (prog_state Reference.page_512 = PROG_STATE_WRITEFLASH
      /\ prog_pagesize Reference.page_512 = 512
      /\ prog_nbytes Reference.page_512 = 512
      /\ length (concat (Reference.chunks_of 64 0)) = 512%nat
      /\ count_flush
           (calls_since Reference.page_512
              (write_session (Reference.chunks_of 64 0)
                 Reference.page_512).2)
         = 2%nat).
Proof. run. Qed.

(** C3 fails as stated. In the last block (10 bytes, page size 64, last
    block flag) of a write of 70 bytes, the page that the first block began
    fills up on the fourth byte: ispFlushPage is called twice, not
    ceil (10 / 64) = 1 times. With the page size 300, a single block of 100
    bytes is flushed three times, not once. *)
Lemma C3_counterexample :
  (prog_state Reference.last_block_10 = PROG_STATE_WRITEFLASH
   /\ prog_pagesize Reference.last_block_10 = 64
   /\ Z.land (prog_blockflags Reference.last_block_10) PROG_BLOCKFLAG_LAST
      <> 0
   /\ prog_nbytes Reference.last_block_10 = 10
   /\ length (concat (Reference.chunks_of 1 2)) = 10%nat
   /\ count_flush
        (calls_since Reference.last_block_10
           (write_session (Reference.chunks_of 1 2)
              Reference.last_block_10).2)
      = 2%nat)
  /\ (prog_state Reference.page_300 = PROG_STATE_WRITEFLASH
      /\ prog_pagesize Reference.page_300 = 300
      /\ Z.land (prog_blockflags Reference.page_300) PROG_BLOCKFLAG_LAST <> 0
      /\ prog_nbytes Reference.page_300 = 100
      /\ length (concat (Reference.chunks_of 12 4)) = 100%nat
      /\ count_flush
           (calls_since Reference.page_300
              (write_session (Reference.chunks_of 12 4)
                 Reference.page_300).2)
         = 3%nat).
Proof. run. Qed.

(** C10 fails as stated when [prog_nbytes] is 0 at the start of the call.
    After a write-flash command with the byte count 0, a chunk of two
    bytes is longer than [prog_nbytes]; the counter is decremented before
    it is tested, so it goes from 0 to 65535 and 65534 and is never seen
    at 0. The call returns 0, the mode is write-flash before the second
    byte and after it, and both bytes are written by ispWriteFlash: none
    goes through the EEPROM path. *)
Lemma C10_counterexample :
  prog_state Reference.flash_write_0 = PROG_STATE_WRITEFLASH
  /\ session_ok Reference.flash_write_0
  /\ prog_nbytes Reference.flash_write_0 = 0
  /\ prog_nbytes Reference.flash_write_0
     < Z.of_nat (length Reference.chunk_2)
  /\ (usbFunctionWrite Reference.chunk_2 Reference.flash_write_0).1 = 0
  /\ prog_nbytes
       (write_bytes (take 1 Reference.chunk_2) Reference.flash_write_0)
     = 65535
  /\ prog_state
       (write_bytes (take 1 Reference.chunk_2) Reference.flash_write_0)
     = PROG_STATE_WRITEFLASH
  /\ isp_log
       (write_bytes (take 2 Reference.chunk_2) Reference.flash_write_0)
     = isp_log
         (write_bytes (take 1 Reference.chunk_2) Reference.flash_write_0)
       ++ [IspWriteFlash 17 8 1]
  /\ calls_since Reference.flash_write_0
       (usbFunctionWrite Reference.chunk_2 Reference.flash_write_0).2
     = [IspWriteFlash 16 7 1; IspWriteFlash 17 8 1]
  /\ prog_state
       (usbFunctionWrite Reference.chunk_2 Reference.flash_write_0).2
     = PROG_STATE_WRITEFLASH
  /\ prog_nbytes
       (usbFunctionWrite Reference.chunk_2 Reference.flash_write_0).2
     = 65534.
Proof. run. Qed.

Lemma C1_paged_flush_count_witness :
  Z.of_nat
    (count_flush
       (calls_since Reference.first_block_128
          (write_session (Reference.chunks_of 16 0)
             Reference.first_block_128).2))
  = 2.
Proof.
  refine (proj1 (C1_paged_flush_count (Reference.chunks_of 16 0)
                   Reference.first_block_128 _ _ _ _ _ _ _)); run.
Defined.

Lemma C3_trailing_page_flush_witness :
  Z.of_nat
    (count_flush
       (calls_since Reference.only_block_100
          (write_session (Reference.chunks_of 12 4)
             Reference.only_block_100).2))
  = 2.
Proof.
  refine (proj1 (C3_trailing_page_flush (Reference.chunks_of 12 4)
                   Reference.only_block_100 _ _ _ _ _ _ _)); run.
Defined.

Lemma C4_read_chunks_witness :
  (usbFunctionRead 8 Reference.eeprom_read_10).1.2
  = [239; 238; 237; 236; 235; 234; 233; 232]
  /\ concat (read_session [8; 2] Reference.eeprom_read_10).1
     = [239; 238; 237; 236; 235; 234; 233; 232; 231; 230].
Proof.
  assert (session_ok Reference.eeprom_read_10) as Hok by run.
  destruct (C4_read_chunks Reference.eeprom_read_10
              (or_intror eq_refl) Hok) as [Hchunk Hsession].
  split.
  - destruct (Hchunk 8 ltac:(lia)) as (_ & Hdata & _). exact Hdata.
  - assert (full_until_last [8; 2]) as Hfull by (simpl; lia).
    destruct (Hsession [8; 2] Hfull) as [Hconcat _]. exact Hconcat.
Defined.


Lemma C6_invalid_state_witness :
  (usbFunctionRead 8 init_state).1.1 = 255
  /\ (usbFunctionWrite Reference.chunk_8 init_state).1 = 255.
Proof.
  destruct (C6_invalid_state init_state) as [Hread Hwrite]. split.
  - destruct (Hread 8 ltac:(lia)) as ([_ Hr] & _). apply Hr.
    split; discriminate.
  - destruct (Hwrite Reference.chunk_8) as ([_ Hw] & _). apply Hw.
    split; discriminate.
Defined.

Lemma C7_pagesize_decoding_witness :
  prog_pagesize
    (usbFunctionSetup Reference.write_flash_page_832 init_state).2 = 832
  /\ prog_blockflags
       (usbFunctionSetup Reference.write_flash_page_832 init_state).2 = 1.
Proof.
  apply (C7_pagesize_decoding Reference.write_flash_page_832 init_state).
  - exact reference_funcs_distinct.
  - split; [reflexivity|]. repeat constructor; discriminate.
  - reflexivity.
Defined.

Lemma C8_long_address_kept_witness :
  prog_address
    (usbFunctionSetup Reference.write_flash_9999
       (usbFunctionSetup Reference.long_address_cmd init_state).2).2
  = 16909060.
Proof.
  assert (Reference.write_flash_9999.[1] ∈ transfer_funcs) as Hop
    by (unfold transfer_funcs; rewrite !elem_of_cons; right; right; now left).
  destruct (C8_long_address_kept Reference.long_address_cmd
              Reference.write_flash_9999 init_state
              reference_funcs_distinct eq_refl Hop)
    as (_ & _ & _ & Hscenario & _).
  exact (Hscenario eq_refl eq_refl eq_refl eq_refl).
Defined.

Lemma C9_unknown_opcode_witness :
  (usbFunctionSetup Reference.unknown_cmd Reference.first_block_128).1 = 0
  /\ prog_state
       (usbFunctionSetup Reference.unknown_cmd Reference.first_block_128).2
     = PROG_STATE_WRITEFLASH.
Proof.
  assert (Forall (fun f => Reference.unknown_cmd.[1] <> f) known_funcs)
    as Hunknown by (repeat constructor; discriminate).
  destruct (C9_unknown_opcode Reference.unknown_cmd
              Reference.first_block_128 Hunknown) as (Hlen & Hmode & _).
  split; [exact Hlen|exact Hmode].
Defined.

Lemma C10_chunk_past_completion_witness :
  (usbFunctionWrite Reference.chunk_8 Reference.flash_write_3).1 = 1
  /\ prog_nbytes
       (write_bytes (take 4 Reference.chunk_8) Reference.flash_write_3)
     = 65535
  /\ isp_log
       (write_bytes (take 5 Reference.chunk_8) Reference.flash_write_3)
     = isp_log
         (write_bytes (take 4 Reference.chunk_8) Reference.flash_write_3)
       ++ [IspWriteEEPROM 20 5].
Proof.
  assert (session_ok Reference.flash_write_3) as Hok by run.
  assert (prog_nbytes Reference.flash_write_3
          < Z.of_nat (length Reference.chunk_8)) as Hlong by reflexivity.
  assert (length Reference.chunk_8 <= 255)%nat as Huchar by (simpl; lia).
  destruct (C10_chunk_past_completion Reference.chunk_8
              Reference.flash_write_3 (or_introl eq_refl) Hok Hlong Huchar)
    as (_ & _ & Hpast).
  destruct (Hpast eq_refl) as (Hret & _ & Hwrap & Hrest).
  split; [exact Hret|]. split; [exact Hwrap|].
  exact (proj2 (Hrest 4%nat 5 ltac:(vm_compute; lia) eq_refl)).
Defined.


(** * Reference runs of the further properties *)

Lemma transfer_command_decoding_witness :
  prog_address (usbFunctionSetup Reference.write_flash_9999 init_state).2
  = 4294941081
  /\ prog_nbytes (usbFunctionSetup Reference.write_flash_9999 init_state).2
     = 64.
Proof.
  assert (descriptor_ok Reference.write_flash_9999) as Hok
    by (split; [reflexivity|repeat constructor; discriminate]).
  assert (Reference.write_flash_9999.[1] ∈ transfer_funcs) as Hop
    by (unfold transfer_funcs; rewrite !elem_of_cons; right; right; now left).
  destruct (transfer_command_decoding Reference.write_flash_9999 init_state
              reference_funcs_distinct Hok Hop eq_refl)
    as (_ & _ & Hcount & _ & _ & Hhigh).
  split; [|exact Hcount].
  exact (Hhigh ltac:(vm_compute; discriminate)).
Defined.


Lemma only_target_commands_call_witness :
  isp_log (usbFunctionSetup Reference.long_address_cmd init_state).2 = [].
Proof.
  assert (Forall (fun f => Reference.long_address_cmd.[1] <> f) target_funcs)
    as Hnot by (repeat constructor; discriminate).
  exact (only_target_commands_call Reference.long_address_cmd init_state
           Hnot).
Defined.

Lemma transmit_replies_witness :
  replyBuffer (usbFunctionSetup Reference.transmit_cmd init_state).2
  = [10; 21; 32; 43; 0; 0; 0; 0].
Proof.
  destruct (transmit_replies Reference.transmit_cmd init_state
              reference_funcs_distinct eq_refl eq_refl) as (_ & _ & Hbuf).
  exact Hbuf.
Defined.

Lemma sck_option_used_by_connect_witness :
  isp_log
    (@usbFunctionSetup reference_usbasp_h open_jumper_isp
       Reference.connect_cmd
       (@usbFunctionSetup reference_usbasp_h open_jumper_isp
          Reference.set_sck_cmd init_state).2).2
  = [SlowSckPin; IspSetSCKOption 3; LedRedOn; IspConnect].
Proof.
  assert (Reference.set_sck_cmd.[1] = USBASP_FUNC_SETISPSCK) as Hsck
    by reflexivity.
  assert (Reference.connect_cmd.[1] = USBASP_FUNC_CONNECT) as Hcon
    by reflexivity.
  destruct (@sck_option_used_by_connect reference_usbasp_h open_jumper_isp
              Reference.set_sck_cmd Reference.connect_cmd init_state
              reference_funcs_distinct Hsck Hcon)
    as (_ & _ & Hlog & _).
  exact Hlog.
Defined.

Lemma connect_idempotent_witness :
  isp_log
    (usbFunctionSetup Reference.connect_cmd
       (usbFunctionSetup Reference.connect_cmd init_state).2).2
  = [SlowSckPin; IspSetSCKOption 5; LedRedOn; IspConnect;
     SlowSckPin; IspSetSCKOption 5; LedRedOn; IspConnect].
Proof.
  assert (Reference.connect_cmd.[1] = USBASP_FUNC_CONNECT) as Hcon
    by reflexivity.
  destruct (connect_idempotent Reference.connect_cmd Reference.connect_cmd
              init_state Hcon Hcon) as (_ & _ & Hlog).
  exact Hlog.
Defined.

Lemma newmode_sticky_witness :
  prog_address_newmode
    (usb_run Reference.calls_without_connect Reference.long_mode) <> 0.
Proof.
  apply newmode_sticky.
  - repeat constructor; vm_compute; intros E; try discriminate E; exact E.
  - discriminate.
Defined.

Lemma eeprom_write_calls_witness :
  isp_log
    (usbFunctionWrite Reference.chunk_8
       (usb_run Reference.calls_to_eeprom_write init_state)).2
  = isp_log (usb_run Reference.calls_to_eeprom_write init_state)
    ++ map (fun i => IspWriteEEPROM (15 + i) i) Reference.chunk_8.
Proof.
  exact (eeprom_write_calls Reference.calls_to_eeprom_write
           Reference.chunk_8 eq_refl).
Defined.

Lemma unpaged_flash_write_witness :
  calls_since Reference.flash_write_3
    (write_session [[1; 2; 3]] Reference.flash_write_3).2
  = [IspWriteFlash 16 1 1; IspWriteFlash 17 2 1; IspWriteFlash 18 3 1].
Proof.
  refine (proj1 (unpaged_flash_write [[1; 2; 3]] Reference.flash_write_3
                   _ _ _ _ _)); run.
Defined.

Lemma write_session_return_values_witness :
  (write_session [[1; 2]; [3; 4]; [5]] Reference.flash_write_3).1
  = [0; 1; 255].
Proof.
  refine (write_session_return_values [[1; 2]; [3; 4]; [5]]
            Reference.flash_write_3 (or_introl eq_refl) _ _ _).
  - run.
  - reflexivity.
  - repeat constructor.
Defined.

Lemma zero_count_write_never_completes_witness :
  (write_session [Reference.chunk_8; Reference.chunk_8]
     Reference.eeprom_write_0).1 = [0; 0]
  /\ prog_nbytes
       (write_session [Reference.chunk_8; Reference.chunk_8]
          Reference.eeprom_write_0).2 = 65520.
Proof.
  destruct (zero_count_write_never_completes
              [Reference.chunk_8; Reference.chunk_8]
              Reference.eeprom_write_0 (or_intror eq_refl) eq_refl eq_refl)
    as (Hret & _ & Hn).
  split; [exact Hret|exact Hn].
Defined.

Lemma read_never_ends_by_count_witness :
  prog_state (read_session [8; 8; 8] Reference.eeprom_read_10).2
  = PROG_STATE_READEEPROM
  /\ Z.of_nat
       (length (concat (read_session [8; 8; 8] Reference.eeprom_read_10).1))
     = 24.
Proof.
  assert (session_ok Reference.eeprom_read_10) as Hok by run.
  assert (Forall (fun len => 8 <= len) [8; 8; 8]) as Hfull
    by (repeat constructor; discriminate).
  destruct (read_never_ends_by_count [8; 8; 8] Reference.eeprom_read_10
              (or_intror eq_refl) Hok Hfull) as (Hm & _ & Hlen).
  split; [exact Hm|exact Hlen].
Defined.

Lemma short_read_ends_transfer_witness :
  usbFunctionRead 8 (usbFunctionRead 2 Reference.eeprom_read_10).2
  = (255, [], (usbFunctionRead 2 Reference.eeprom_read_10).2).
Proof.
  assert (0 <= 2 < 8) as Hshort by lia.
  destruct (short_read_ends_transfer 2 Reference.eeprom_read_10
              (or_intror eq_refl) Hshort) as (_ & Hrefused & _).
  exact (Hrefused 8).
Defined.

Lemma pagecounter_within_page_witness :
  0 < prog_pagecounter
        (usbFunctionWrite Reference.chunk_8 Reference.first_block_128).2
  <= 64.
Proof.
  assert (0 < prog_pagesize Reference.first_block_128 < 256) as HP by run.
  assert (0 < prog_pagecounter Reference.first_block_128
          <= prog_pagesize Reference.first_block_128) as Hpc by run.
  exact (proj2 (pagecounter_within_page Reference.chunk_8
                  Reference.first_block_128 HP Hpc)).
Defined.

Lemma first_block_counter_is_a_byte_witness :
  prog_pagecounter
    (usbFunctionSetup Reference.write_flash_page_300 init_state).2 = 44.
Proof.
  assert (session_ok init_state) as Hok by run.
  assert (Z.land (Z.land Reference.write_flash_page_300.[5] 15)
            PROG_BLOCKFLAG_FIRST <> 0) as Hfirst by discriminate.
  exact (proj1 (first_block_counter_is_a_byte
                  Reference.write_flash_page_300 init_state
                  reference_funcs_distinct Hok eq_refl Hfirst)).
Defined.

Lemma flush_period_of_any_page_size_witness :
  Z.of_nat
    (count_flush
       (calls_since Reference.page_300
          (write_session (Reference.chunks_of 12 4) Reference.page_300).2))
  = 3.
Proof.
  refine (proj1 (proj2 (flush_period_of_any_page_size
                          (Reference.chunks_of 12 4) Reference.page_300
                          _ _ _ _ _ _))); run.
Defined.

Lemma later_block_continues_page_witness :
  Z.of_nat
    (count_flush
       (calls_since Reference.last_block_64
          (write_session (Reference.chunks_of 8 0)
             Reference.last_block_64).2))
  = 2.
Proof.
  refine (proj1 (proj2 (later_block_continues_page
                          (Reference.chunks_of 8 0) Reference.last_block_64
                          _ _ _ _ _ _))); run.
Defined.

Lemma two_block_write_witness :
  Z.of_nat
    (count_flush
       (calls_since Reference.first_block_200
          (write_session (Reference.chunks_of 8 0)
             (usbFunctionSetup Reference.second_block_cmd
                (write_session (Reference.chunks_of 25 0)
                   Reference.first_block_200).2).2).2))
  = 5.
Proof.
  refine (two_block_write (Reference.chunks_of 25 0)
            (Reference.chunks_of 8 0) Reference.second_block_cmd
            Reference.first_block_200 _ _ _ _ _ _ _
            reference_funcs_distinct _ _ _ _ _); run.
Defined.
